(** * Camera keyframe engine and frame capture loop

    A shallow embedding of the two cores of the asset panning video maker:

    - [Rig]: the [DynamicCameraRig] component (keyframe generation,
      keyframe interpolation, the per-render [useFrame] callback and the
      imperative handle);
    - [Capture]: the [useVideoCapture] hook ([startRecording], the
      [captureFrame] tick, [finishRecording], [stopRecording]).

    JavaScript numbers are modelled as exact rationals ([Q]); equality of
    numbers is therefore [Qeq] ([==]), and the program's doubles agree with
    them up to rounding.  Where rounding decides what the program does, in
    the product that gives the number of frames of a capture, the product
    is rounded as the machine rounds it ([JS.times]).  The trigonometric
    functions and the random source are parameters of the generator: no
    property below depends on their values. *)

From Stdlib Require Import String Ascii DecimalString.
From Stdlib Require Import QArith Qminmax Qround Qabs Lqa Lia ZArith.
From Stdlib Require Import List Bool Sorting.Sorted Permutation.
Import ListNotations.
Open Scope Q_scope.

(** ** JavaScript numbers *)

Module JS.

(** [Number(n)] for a non-negative integer such as an array length or an
    array index. *)
Definition num (n : nat) : Q := inject_Z (Z.of_nat n).

(** [a <= b], [a < b], [a >= b] and [a > b] as the booleans the code
    branches on. *)
Definition le (a b : Q) : bool := Qle_bool a b.
Definition lt (a b : Q) : bool := negb (Qle_bool b a).
Definition ge (a b : Q) : bool := Qle_bool b a.
Definition gt (a b : Q) : bool := negb (Qle_bool a b).

(** [a % b]: the remainder has the sign of the dividend (truncated
    division).  JavaScript yields NaN for [b = 0]; here the quotient
    [a / 0] is [0], and the remainder is [a]. *)
Definition trunc (a : Q) : Z :=
  if Qle_bool 0 a then Qfloor a else Qceiling a.
Definition rem (a b : Q) : Q := a - b * inject_Z (trunc (a / b)).

(** [Math.round]: the nearest integer, halves rounded up. *)
Definition round (a : Q) : Z := Qfloor (a + 0.5).

(** [v || d] on an optional number: [undefined] and [0] are falsy. *)
Definition or_default (v : option Q) (d : Q) : Q :=
  match v with
  | Some f => if Qeq_bool f 0 then d else f
  | None => d
  end.

(** *** Doubles

    [double a] is the double nearest to [a]: the number with a significand
    of 53 bits nearest to it, a tie going to the even significand.  It is
    what an arithmetic operation on doubles returns when its exact result
    is [a].  Overflow and subnormal numbers are left out. *)

(** [2 ^ k], and 1 for a negative [k]. *)
Definition scale2 (k : Z) : Z := (2 ^ Z.max 0 k)%Z.

(** The exponent of [n / d], both positive: [floor (log2 (n / d))]. *)
Definition exponent (n d : Z) : Z :=
  let k := (Z.log2 n - Z.log2 d)%Z in
  if (d * scale2 k <=? n * scale2 (- k))%Z then k else (k - 1)%Z.

(** [n / d] rounded to the nearest integer, halves to the even one. *)
Definition halfEven (n d : Z) : Z :=
  let q := (n / d)%Z in
  match (2 * (n mod d) ?= d)%Z with
  | Lt => q
  | Gt => (q + 1)%Z
  | Eq => if Z.even q then q else (q + 1)%Z
  end.

Definition double (a : Q) : Q :=
  let n := Z.abs (Qnum (Qred a)) in
  let d := Zpos (Qden (Qred a)) in
  if (n =? 0)%Z then 0
  else
    let e := (exponent n d - 52)%Z in
    let m := halfEven (n * scale2 (- e)) (d * scale2 e) in
    let r := Qred (inject_Z (m * scale2 e) / inject_Z (scale2 (- e))) in
    if (Qnum a <? 0)%Z then - r else r.

(** [a * b] on doubles. *)
Definition times (a b : Q) : Q := double (a * b).

End JS.

(** ** The parts of three.js the rig uses *)

Module THREE.

Record Vector3 : Type := mkVector3 { x : Q; y : Q; z : Q }.

(** [new THREE.Vector3()] *)
Definition zero : Vector3 := mkVector3 0 0 0.

Definition add (a b : Vector3) : Vector3 :=
  mkVector3 (x a + x b) (y a + y b) (z a + z b).

Definition divideScalar (a : Vector3) (s : Q) : Vector3 :=
  mkVector3 (x a / s) (y a / s) (z a / s).

(** [new THREE.Vector3().lerpVectors(v1, v2, alpha)] *)
Definition lerpVectors (v1 v2 : Vector3) (alpha : Q) : Vector3 :=
  mkVector3 (x v1 + (x v2 - x v1) * alpha)
            (y v1 + (y v2 - y v1) * alpha)
            (z v1 + (z v2 - z v1) * alpha).

(** [v.lerp(w, alpha)] *)
Definition lerpTo (v w : Vector3) (alpha : Q) : Vector3 :=
  mkVector3 (x v + (x w - x v) * alpha)
            (y v + (y w - y v) * alpha)
            (z v + (z w - z v) * alpha).

(** [THREE.MathUtils.lerp(a, b, t)] *)
Definition lerp (a b t : Q) : Q := (1 - t) * a + t * b.

(** Component-wise numeric equality of vectors. *)
Definition veq (a b : Vector3) : Prop :=
  x a == x b /\ y a == y b /\ z a == z b.

(** A camera: its position, the point it was last turned to by
    [camera.lookAt], and its field of view when it has one (a perspective
    camera; [None] when the object has no [fov] property). *)
Record Camera : Type := mkCamera {
  cam_position : Vector3;
  cam_target : Vector3;
  cam_fov : option Q
}.

(** [clock.getElapsedTime()] reads the time anew on every call.  Of the
    calls made in one render two bear on the state: the one whose value
    is latched as the start time of a recording, made only while none is
    latched, and the one the time is computed from, which comes after
    it.  The others are in log statements. *)
Record Clock : Type := mkClock {
  atLatch : Q;
  atQuery : Q
}.

(** A clock that does not advance between the calls of the render. *)
Definition still (elapsed : Q) : Clock := mkClock elapsed elapsed.

End THREE.

(** ** DynamicCameraRig *)

Module Rig.

Import THREE.

Record CameraKeyframe : Type := mkKeyframe {
  time : Q;
  position : Vector3;
  lookAt : Vector3;
  fov : option Q
}.

(** The props of the component, defaults applied by [withDefaults]. *)
Record DynamicCameraRigProps : Type := mkProps {
  enabled : bool;
  duration : Q;
  assetsPositions : list Vector3;
  startPosition : option Vector3
}.

Definition withDefaults (enabled' : option bool) (duration' : option Q)
    (assets' : option (list Vector3)) (start' : option Vector3)
    : DynamicCameraRigProps :=
  mkProps (match enabled' with Some e => e | None => false end)
          (match duration' with Some d => d | None => 20 end)
          (match assets' with Some l => l | None => [zero] end)
          start'.

(** What [generateRandomKeyframes] returns. *)
Record Generated : Type := mkGenerated {
  keyframes : list CameraKeyframe;
  dynamicDuration : Q
}.

(** [movements.sort((a, b) => a.time - b.time)]: [Array.prototype.sort]
    is stable, so its result is the one of any stable sort; insertion
    from the right is used here. *)
Fixpoint insertByTime (k : CameraKeyframe) (l : list CameraKeyframe)
    : list CameraKeyframe :=
  match l with
  | [] => [k]
  | k' :: l' =>
      if JS.le (time k) (time k') then k :: l
      else k' :: insertByTime k l'
  end.

Fixpoint sortByTime (l : list CameraKeyframe) : list CameraKeyframe :=
  match l with
  | [] => []
  | k :: l' => insertByTime k (sortByTime l')
  end.

(** [arr.forEach((item, index) => ...)] threading the array the callback
    pushes to. *)
Fixpoint forEachFrom {A B : Type} (f : B -> A -> nat -> B)
    (index : nat) (arr : list A) (s : B) : B :=
  match arr with
  | [] => s
  | a :: arr' => forEachFrom f (S index) arr' (f s a index)
  end.

Definition forEach {A B : Type} (f : B -> A -> nat -> B)
    (arr : list A) (s : B) : B :=
  forEachFrom f 0 arr s.

Section Generator.

(** [Math.sin], [Math.cos] and [Math.PI]. *)
Variable Math_sin Math_cos : Q -> Q.
Variable Math_PI : Q.

Variable props : DynamicCameraRigProps.

(** [startPosition ? a : b] *)
Definition ifStart {A : Type} (a : Vector3 -> A) (b : A) : A :=
  match startPosition props with
  | Some sp => a sp
  | None => b
  end.

Definition generateSingleAssetAnimation (assetPos : Vector3)
    (baseAngle : Q) : list CameraKeyframe :=
  let movementVariation :=
    JS.rem baseAngle (Math_PI * 2) / (Math_PI * 2) in
  let heightVariation : Q :=
    if JS.gt movementVariation 0.5 then 1 else -1 in
  let sideMovement : Q :=
    if JS.gt movementVariation 0.5 then 1 else -1 in
  let heightPattern : Q :=
    if JS.gt heightVariation 0 then 0.5 else -0.5 in
  [ mkKeyframe 0
      (ifStart (fun sp => sp)
         (mkVector3 (x assetPos + Math_sin baseAngle * 3)
                    (y assetPos + 2)
                    (z assetPos + Math_cos baseAngle * 3)))
      assetPos (Some 50);
    mkKeyframe 3
      (ifStart
         (fun sp => lerpVectors sp
            (mkVector3
               (x assetPos + Math_sin (baseAngle + 0.2 * sideMovement) * 3)
               (y assetPos + 2 + heightPattern)
               (z assetPos + Math_cos (baseAngle + 0.2 * sideMovement) * 3))
            0.5)
         (mkVector3
            (x assetPos + Math_sin (baseAngle + 0.2 * sideMovement) * 3)
            (y assetPos + 2 + heightPattern)
            (z assetPos + Math_cos (baseAngle + 0.2 * sideMovement) * 3)))
      assetPos (Some 45);
    mkKeyframe 6
      (mkVector3
         (x assetPos + Math_sin (baseAngle + 0.6 * sideMovement) * 2.5)
         (y assetPos + 1.5 + heightPattern * 0.5)
         (z assetPos + Math_cos (baseAngle + 0.6 * sideMovement) * 2.5))
      assetPos (Some 40);
    mkKeyframe 9
      (mkVector3
         (x assetPos + Math_sin (baseAngle + 1.2 * sideMovement) * 2)
         (y assetPos + 1.2)
         (z assetPos + Math_cos (baseAngle + 1.2 * sideMovement) * 2))
      assetPos (Some 35);
    mkKeyframe 12
      (mkVector3
         (x assetPos + Math_sin (baseAngle + 2 * sideMovement) * 1.8)
         (y assetPos + 0.8)
         (z assetPos + Math_cos (baseAngle + 2 * sideMovement) * 1.8))
      assetPos (Some 30);
    mkKeyframe 15
      (mkVector3
         (x assetPos + Math_sin (baseAngle + 2.8 * sideMovement) * 2.5)
         (y assetPos + 1.5)
         (z assetPos + Math_cos (baseAngle + 2.8 * sideMovement) * 2.5))
      assetPos (Some 40);
    mkKeyframe 18
      (mkVector3
         (x assetPos + Math_sin (baseAngle + 3.5 * sideMovement) * 4)
         (y assetPos + 2.5)
         (z assetPos + Math_cos (baseAngle + 3.5 * sideMovement) * 4))
      assetPos (Some 50);
    mkKeyframe 20
      (mkVector3
         (x assetPos + Math_sin (baseAngle + 4.2 * sideMovement) * 4.5)
         (y assetPos + 2.5)
         (z assetPos + Math_cos (baseAngle + 4.2 * sideMovement) * 4.5))
      assetPos (Some 55) ].

Definition minSecondsPerAsset : Q := 4.
Definition introDuration : Q := 6.

(** The four keyframes [movements] is initialised with. *)
Definition introMovements (center : Vector3) (baseAngle : Q)
    : list CameraKeyframe :=
  [ mkKeyframe 0
      (ifStart (fun sp => sp)
         (mkVector3 (x center + Math_sin baseAngle * 3.5)
                    (y center + 2.5)
                    (z center + Math_cos baseAngle * 3.5)))
      center (Some 50);
    mkKeyframe 2
      (ifStart
         (fun sp => lerpVectors sp
            (mkVector3 (x center + Math_sin baseAngle * 3.5)
                       (y center + 2.5)
                       (z center + Math_cos baseAngle * 3.5))
            0.4)
         (mkVector3 (x center + Math_sin baseAngle * 3.5)
                    (y center + 2.5)
                    (z center + Math_cos baseAngle * 3.5)))
      center (Some 45);
    mkKeyframe 4
      (mkVector3 (x center + Math_sin (baseAngle + 0.4) * 3.5)
                 (y center + 2.5)
                 (z center + Math_cos (baseAngle + 0.4) * 3.5))
      center (Some 40);
    mkKeyframe 6
      (mkVector3 (x center + Math_sin (baseAngle + 0.8) * 3)
                 (y center + 2)
                 (z center + Math_cos (baseAngle + 0.8) * 3))
      center (Some 45) ].

(** The callback of [assets.forEach]: what one asset pushes.  The times
    are taken over the rationals, where the end of one asset's slot and the
    start of the next are the same number; the program's rounded sums may
    differ in the last bit, and the sort then orders the two keyframes by
    them. *)
Definition tourCallback (assets : list Vector3) (baseAngle : Q)
    (timePerAsset : Q) (movements : list CameraKeyframe)
    (asset : Vector3) (index : nat) : list CameraKeyframe :=
  let startTime := introDuration + JS.num index * timePerAsset in
  let midTime := startTime + timePerAsset * 0.5 in
  let endTime := startTime + timePerAsset in
  let movements :=
    movements ++
    [ mkKeyframe startTime
        (mkVector3
           (x asset + Math_sin (baseAngle + JS.num index) * 2.5)
           (y asset + 1.5)
           (z asset + Math_cos (baseAngle + JS.num index) * 2.5))
        asset (Some 40) ] in
  let movements :=
    movements ++
    [ mkKeyframe midTime
        (mkVector3
           (x asset + Math_sin (baseAngle + JS.num index + 0.3) * 2)
           (y asset + 1)
           (z asset + Math_cos (baseAngle + JS.num index + 0.3) * 2))
        asset (Some 35) ] in
  if (S index <? length assets)%nat then
    movements ++
    [ mkKeyframe endTime
        (mkVector3
           (x asset + Math_sin (baseAngle + JS.num index + 0.6) * 2.2)
           (y asset + 1.2)
           (z asset + Math_cos (baseAngle + JS.num index + 0.6) * 2.2))
        (nth (S index) assets zero) (Some 45) ]
  else movements.

(** The keyframe pushed after the tour. *)
Definition finalMovement (center : Vector3) (baseAngle : Q)
    (dynamicDuration' : Q) : CameraKeyframe :=
  mkKeyframe dynamicDuration'
    (mkVector3 (x center + Math_sin (baseAngle + 6) * 5)
               (y center + 3)
               (z center + Math_cos (baseAngle + 6) * 5))
    center (Some 60).

(** [movements] as it stands just before the sort. *)
Definition multiAssetMovements (center : Vector3)
    (assets : list Vector3) (baseAngle : Q) : list CameraKeyframe :=
  let dynamicDuration' :=
    Qmax 20 (introDuration + JS.num (length assets) * minSecondsPerAsset) in
  let tourDuration := dynamicDuration' - introDuration in
  let timePerAsset := tourDuration / JS.num (length assets) in
  forEach (tourCallback assets baseAngle timePerAsset) assets
          (introMovements center baseAngle)
  ++ [finalMovement center baseAngle dynamicDuration'].

Definition generateMultiAssetAnimation (center : Vector3)
    (assets : list Vector3) (baseAngle : Q) : Generated :=
  let dynamicDuration' :=
    Qmax 20 (introDuration + JS.num (length assets) * minSecondsPerAsset) in
  mkGenerated (sortByTime (multiAssetMovements center assets baseAngle))
              dynamicDuration'.

(** [random] is the value [Math.random()] returns. *)
Definition generateRandomKeyframes (random : Q) : Generated :=
  let center :=
    if (0 <? length (assetsPositions props))%nat then
      divideScalar (fold_left add (assetsPositions props) zero)
                   (JS.num (length (assetsPositions props)))
    else zero in
  let baseAngle := random * Math_PI * 2 in
  match assetsPositions props with
  | [assetPos] =>
      mkGenerated (generateSingleAssetAnimation assetPos baseAngle)
                  (duration props)
  | assets => generateMultiAssetAnimation center assets baseAngle
  end.

End Generator.

(** Keyframes in ascending order of time, equal times allowed, and in
    strictly ascending order. *)
Definition ascending (kfs : list CameraKeyframe) : Prop :=
  StronglySorted (fun k k' => time k <= time k') kfs.

Definition strictlyAscending (kfs : list CameraKeyframe) : Prop :=
  StronglySorted (fun k k' => time k < time k') kfs.

(** How many keyframes of a list have the time [c]. *)
Definition countAt (c : Q) (kfs : list CameraKeyframe) : nat :=
  length (filter (fun k => Qeq_bool (time k) c) kfs).

(** *** Interpolation *)

Record Pose : Type := mkPose {
  pose_position : Vector3;
  pose_lookAt : Vector3;
  pose_fov : Q
}.

(** The refs of the component. *)
Record RigState : Type := mkRig {
  animationStartTimeRef : option Q;
  isRecordingRef : bool;
  keyframesRef : list CameraKeyframe;
  dynamicDurationRef : Q
}.

(** The initial refs of a mounted component. *)
Definition mount (props : DynamicCameraRigProps) : RigState :=
  mkRig None false [] (duration props).

(** The pose returned when there is no keyframe. *)
Definition defaultPose : Pose :=
  mkPose (mkVector3 0 2 5) (mkVector3 0 0 0) 50.

(** [{ position: k.position.clone(), lookAt: k.lookAt.clone(),
      fov: k.fov || 50 }] *)
Definition keyframePose (k : CameraKeyframe) : Pose :=
  mkPose (position k) (lookAt k) (JS.or_default (fov k) 50).

(** The [for] loop that looks for the keyframe interval: the first
    adjacent pair whose times enclose [clampedTime]. *)
Fixpoint findInterval (clampedTime : Q) (kfs : list CameraKeyframe)
    : option (CameraKeyframe * CameraKeyframe) :=
  match kfs with
  | a :: ((b :: _) as rest) =>
      if JS.ge clampedTime (time a) && JS.le clampedTime (time b)
      then Some (a, b)
      else findInterval clampedTime rest
  | _ => None
  end.

(** The interpolation factor [t]. *)
Definition blendFactor (clampedTime : Q)
    (beforeFrame afterFrame : CameraKeyframe) : Q :=
  let timeDiff := time afterFrame - time beforeFrame in
  if JS.gt timeDiff 0
  then (clampedTime - time beforeFrame) / timeDiff
  else 0.

(** [easedT]: hermite while recording, quintic in preview.  The curves
    are taken over the rationals; the program's value is the rounded one,
    which may differ in the last bits. *)
Definition ease (recording : bool) (t : Q) : Q :=
  if recording
  then t * t * (3.0 - 2.0 * t)
  else t * t * t * (t * (t * 6 - 15) + 10).

Definition clampTime (st : RigState) (currentTime : Q) : Q :=
  Qmax 0 (Qmin currentTime (dynamicDurationRef st)).

Definition interpolateKeyframes (st : RigState) (currentTime : Q) : Pose :=
  match keyframesRef st with
  | [] => defaultPose
  | first :: _ =>
      let lastFrame := last (keyframesRef st) first in
      let clampedTime := clampTime st currentTime in
      if JS.le clampedTime (time first) then keyframePose first
      else if JS.ge clampedTime (time lastFrame) then keyframePose lastFrame
      else
        let '(beforeFrame, afterFrame) :=
          match findInterval clampedTime (keyframesRef st) with
          | Some p => p
          | None => (first, lastFrame)
          end in
        let t := blendFactor clampedTime beforeFrame afterFrame in
        let easedT := ease (isRecordingRef st) t in
        mkPose
          (lerpVectors (position beforeFrame) (position afterFrame) easedT)
          (lerpVectors (lookAt beforeFrame) (lookAt afterFrame) easedT)
          (lerp (JS.or_default (fov beforeFrame) 50)
                (JS.or_default (fov afterFrame) 50) easedT)
  end.

(** *** The imperative handle and the render callback *)

Section Component.

Variable Math_sin Math_cos : Q -> Q.
Variable Math_PI : Q.
Variable props : DynamicCameraRigProps.

Definition startRecordingAnimation (random : Q) (st : RigState)
    : RigState :=
  let result :=
    generateRandomKeyframes Math_sin Math_cos Math_PI props random in
  mkRig None true (keyframes result) (dynamicDuration result).

Definition stopRecordingAnimation (st : RigState) : RigState :=
  mkRig None false (keyframesRef st) (dynamicDurationRef st).

Definition resetAnimation (st : RigState) (camera : Camera)
    : RigState * Camera :=
  (mkRig None false [] (duration props),
   mkCamera (mkVector3 0 2 5) (mkVector3 0 0 0)
            (match cam_fov camera with
             | Some _ => Some 50
             | None => None
             end)).

Definition getDynamicDuration (st : RigState) : Q :=
  dynamicDurationRef st.

(** The first part of the render callback: the refs after the start
    time has been latched, and [currentTime]. *)
Definition frameTime (st : RigState) (clock : Clock) : RigState * Q :=
  if isRecordingRef st then
    let start :=
      match animationStartTimeRef st with
      | Some s => s
      | None => atLatch clock
      end in
    (mkRig (Some start) (isRecordingRef st) (keyframesRef st)
           (dynamicDurationRef st),
     atQuery clock - start)
  else (st, JS.rem (atQuery clock * 0.1) (dynamicDurationRef st)).

(** [useFrame(({ clock }) => ...)] *)
Definition useFrame (st : RigState) (camera : Camera) (clock : Clock)
    : RigState * Camera :=
  if negb (enabled props) then (st, camera)
  else
    let '(st', currentTime) := frameTime st clock in
    let pose := interpolateKeyframes st' currentTime in
    let camera' :=
      if isRecordingRef st' then
        mkCamera (pose_position pose) (pose_lookAt pose) (cam_fov camera)
      else
        mkCamera (lerpTo (cam_position camera) (pose_position pose) 0.05)
                 (pose_lookAt pose) (cam_fov camera) in
    let fov' :=
      match cam_fov camera' with
      | Some f =>
          if isRecordingRef st' then Some (pose_fov pose)
          else if JS.gt (Qabs (f - pose_fov pose)) 0.1
               then Some (lerp f (pose_fov pose) 0.02)
               else Some f
      | None => None
      end in
    (st', mkCamera (cam_position camera') (cam_target camera') fov').

(** The times the interpolator is queried at over successive renders,
    [clocks] being the readings of the render clock on each of them. *)
Fixpoint queryTimes (st : RigState) (clocks : list Clock) : list Q :=
  match clocks with
  | [] => []
  | c :: clocks' =>
      if negb (enabled props) then queryTimes st clocks'
      else
        let '(st', currentTime) := frameTime st c in
        currentTime :: queryTimes st' clocks'
  end.

End Component.

End Rig.

(** ** useVideoCapture

    The hook as it records video only.  Its later version, which can add a
    music track and delays a tick that comes ahead of the 30 fps schedule,
    starts, submits frames, finishes and stops in the same way. *)

Module Capture.

Inductive Error : Type :=
| JsError (message : string)
| EncoderError (code : nat).

(** What [videoSource.add(timestampInSeconds, durationInSeconds)] is
    given. *)
Record Frame : Type := mkFrame {
  timestampInSeconds : Q;
  durationInSeconds : Q
}.

Definition Uint8Array : Type := list Byte.byte.

Record Canvas : Type := mkCanvas { width : Z; height : Z }.

Inductive OutputState : Type := Pending | Started | Finalized | Canceled.

(** An [Output] together with the [CanvasSource] of its video track and
    its [BufferTarget]: the frames added so far, oldest first, and the
    buffer of the target. *)
Record Output : Type := mkOutput {
  state : OutputState;
  added : list Frame;
  buffer : option Uint8Array
}.

(** The behaviour of the encoder library: which calls throw, and the
    buffer the target holds once finalised ([None] for no buffer). *)
Record Encoder : Type := mkEncoder {
  startThrows : option Error;
  addThrows : list Frame -> Frame -> option Error;
  finalizeThrows : list Frame -> option Error;
  mux : list Frame -> option Uint8Array;
  cancelThrows : option Error
}.

(** Objects live in a heap; a reference is an index into it.  The output
    and its video source are one heap cell. *)
Definition Ref : Type := nat.

Record Hook : Type := mkHook {
  isRecordingRef : bool;
  outputRef : option Ref;
  videoSourceRef : option Ref;
  heap : list Output
}.

(** The refs of a freshly mounted hook. *)
Definition init : Hook := mkHook false None None [].

Definition deref (h : list Output) (r : Ref) : Output :=
  nth r h (mkOutput Pending [] None).

Fixpoint store (r : Ref) (o : Output) (h : list Output) : list Output :=
  match h, r with
  | [], _ => []
  | _ :: h', O => o :: h'
  | o' :: h', S r' => o' :: store r' o h'
  end.

(** The variables the [captureFrame] closure captures. *)
Record Session : Type := mkSession {
  output : Ref;
  videoSource : Ref;
  fps : Q;
  totalFrames : Q;
  frameCount : nat
}.

(** How a call of [captureFrame] ends: it has scheduled itself again, or
    it has settled the promise [startRecording] returned. *)
Inductive Tick : Type :=
| Scheduled (s : Session)
| Resolved (video : Uint8Array)
| Rejected (error : Error).

Section Hook.

Variable encoder : Encoder.

(** The [finally] block of [finishRecording] and [stopRecording]. *)
Definition cleanUp (h : list Output) : Hook := mkHook false None None h.

(** [startRecording] up to the creation of the promise: either it
    throws, or the capture closure is ready for its first tick. *)
Definition startRecording (h : Hook) (canvas : Canvas) (duration : Q)
    : Hook * (Error + Session) :=
  if isRecordingRef h then (h, inl (JsError "Already recording"))
  else
    let r := List.length (heap h) in
    let h1 := mkHook true (Some r) (Some r)
                     (heap h ++ [mkOutput Pending [] None]) in
    match startThrows encoder with
    | Some e => (h1, inl e)
    | None =>
        let fps := 30 in
        let totalFrames := JS.times duration fps in
        (mkHook true (Some r) (Some r)
                (store r (mkOutput Started [] None) (heap h1)),
         inr (mkSession r r fps totalFrames 0))
    end.

Definition finishRecording (h : Hook) : Hook * (Error + Uint8Array) :=
  match outputRef h with
  | None => (h, inl (JsError "No active recording"))
  | Some r =>
      if negb (isRecordingRef h)
      then (h, inl (JsError "No active recording"))
      else
        let o := deref (heap h) r in
        match finalizeThrows encoder (added o) with
        | Some e => (cleanUp (heap h), inl e)
        | None =>
            let o' := mkOutput Finalized (added o)
                               (mux encoder (added o)) in
            let heap' := store r o' (heap h) in
            match buffer o' with
            | None =>
                (cleanUp heap', inl (JsError "Failed to get video buffer"))
            | Some b => (cleanUp heap', inr b)
            end
        end
  end.

Definition stopRecording (h : Hook) : Hook * option Error :=
  match outputRef h with
  | None => (h, None)
  | Some r =>
      if negb (isRecordingRef h) then (h, None)
      else
        match cancelThrows encoder with
        | Some e => (cleanUp (heap h), Some e)
        | None =>
            let o := deref (heap h) r in
            (cleanUp (store r (mkOutput Canceled (added o) (buffer o))
                            (heap h)),
             None)
        end
  end.

(** The frame a call of [captureFrame] submits: [timestampInSeconds] and
    [durationInSeconds]. *)
Definition nextFrame (s : Session) : Frame :=
  let timestampInSeconds := JS.num (frameCount s) / fps s in
  let durationInSeconds := 1 / fps s in
  mkFrame timestampInSeconds durationInSeconds.

(** One call of [captureFrame]. *)
Definition captureFrame (h : Hook) (s : Session) : Hook * Tick :=
  if negb (isRecordingRef h)
     || JS.ge (JS.num (frameCount s)) (totalFrames s)
  then
    let '(h', r) := finishRecording h in
    (h', match r with
         | inl e => Rejected e
         | inr video => Resolved video
         end)
  else
    let o := deref (heap h) (videoSource s) in
    let f := nextFrame s in
    match addThrows encoder (added o) f with
    | Some e => (h, Rejected e)
    | None =>
        (mkHook (isRecordingRef h) (outputRef h) (videoSourceRef h)
                (store (videoSource s)
                       (mkOutput (state o) (added o ++ [f]) (buffer o))
                       (heap h)),
         Scheduled (mkSession (output s) (videoSource s) (fps s)
                              (totalFrames s) (S (frameCount s))))
    end.

(** The animation-frame loop: [captureFrame] called again and again
    for as long as it schedules itself, at most [ticks] times. *)
Fixpoint runCapture (ticks : nat) (h : Hook) (s : Session)
    : Hook * Tick :=
  match ticks with
  | O => (h, Scheduled s)
  | S ticks' =>
      match captureFrame h s with
      | (h', Scheduled s') => runCapture ticks' h' s'
      | settled => settled
      end
  end.

(** The frames [captureFrame] submits over its first [n] calls of a
    capture at 30 frames per second. *)
Definition expectedFrames (n : nat) : list Frame :=
  map (fun i => mkFrame (JS.num i / 30) (1 / 30)) (seq 0 n).

(** The frames the video source of a session holds. *)
Definition submitted (h : Hook) (s : Session) : list Frame :=
  added (deref (heap h) (videoSource s)).

End Hook.

(** A capture of [duration] seconds in flight: the hook records, its output
    has been started, and the closure [s] has submitted one frame per call
    so far. *)
Definition inFlight (duration : Q) (h : Hook) (s : Session) : Prop :=
  isRecordingRef h = true
  /\ outputRef h = Some (output s)
  /\ output s = videoSource s
  /\ (videoSource s < List.length (heap h))%nat
  /\ fps s = 30
  /\ totalFrames s = JS.times duration 30
  /\ state (deref (heap h) (videoSource s)) = Started
  /\ submitted h s = expectedFrames (frameCount s).

(** The promise [startRecording] returned is settled. *)
Definition settled (t : Tick) : Prop :=
  match t with
  | Scheduled _ => False
  | _ => True
  end.

End Capture.

(** ** Concrete inputs

    The inputs the examples below are evaluated at.  The trigonometric
    functions are replaced by constant ones and pi by a rational
    approximation. *)

Module Samples.

Import THREE.

Definition sin0 : Q -> Q := fun _ => 0.
Definition cos1 : Q -> Q := fun _ => 1.
Definition pi : Q := 355 # 113.

Definition noAssets : Rig.DynamicCameraRigProps :=
  Rig.mkProps true 20 [] None.

Definition oneAsset : Rig.DynamicCameraRigProps :=
  Rig.mkProps true 20 [mkVector3 1 0 2] None.

Definition twoAssets : Rig.DynamicCameraRigProps :=
  Rig.mkProps true 20 [mkVector3 1 0 0; mkVector3 0 0 1] None.


Definition perspective : Camera :=
  mkCamera (mkVector3 0 3 8) zero (Some 50).

(** Two keyframes four seconds apart, and a rig recording between them. *)
Definition kfA : Rig.CameraKeyframe :=
  Rig.mkKeyframe 0 (mkVector3 0 2 5) zero (Some 50).

Definition kfB : Rig.CameraKeyframe :=
  Rig.mkKeyframe 4 (mkVector3 4 2 5) (mkVector3 0 1 0) (Some 90).

Definition recordingAB : Rig.RigState :=
  Rig.mkRig None true [kfA; kfB] 4.

(** An encoder that never throws, and one whose source throws on the
    third frame. *)
Definition reliable : Capture.Encoder :=
  Capture.mkEncoder None (fun _ _ => None) (fun _ => None)
                    (fun _ => Some []) None.

Definition faulty : Capture.Encoder :=
  Capture.mkEncoder None
    (fun fs _ => if (2 <=? length fs)%nat
                 then Some (Capture.EncoderError 7) else None)
    (fun _ => None) (fun _ => Some []) None.

Definition canvas : Capture.Canvas := Capture.mkCanvas 1280 720.

End Samples.

(** ** Comparing poses *)

Module Geometry.

Import THREE.

(** Numeric equality of poses, component by component. *)
Definition poseEq (p q : Rig.Pose) : Prop :=
  veq (Rig.pose_position p) (Rig.pose_position q)
  /\ veq (Rig.pose_lookAt p) (Rig.pose_lookAt q)
  /\ Rig.pose_fov p == Rig.pose_fov q.

(** What a keyframe may look at and how wide it may be: the centre or one
    of the assets, with a field of view from 30 to 60 degrees. *)
Definition wellAimed (center : Vector3) (assets : list Vector3)
    (k : Rig.CameraKeyframe) : Prop :=
  (Rig.lookAt k = center \/ In (Rig.lookAt k) assets)
  /\ exists f, Rig.fov k = Some f /\ 30 <= f /\ f <= 60.

(** The point half way between two points. *)
Definition midpoint (a b : Vector3) : Vector3 :=
  mkVector3 ((x a + x b) / 2) ((y a + y b) / 2) ((z a + z b) / 2).

End Geometry.

(** ** useAssetManager *)

Module Assets.

Import THREE.

Record Euler : Type := mkEuler { ex : Q; ey : Q; ez : Q }.

Record Asset : Type := mkAsset {
  id : string;
  name : string;
  url : string;
  position : Vector3;
  rotation : Euler;
  scale : Q
}.

(** [Partial<Omit<Asset, 'id'>>]: [None] for a key that is absent. *)
Record Updates : Type := mkUpdates {
  u_name : option string;
  u_url : option string;
  u_position : option Vector3;
  u_rotation : option Euler;
  u_scale : option Q
}.

(** The state of the hook, and the object URLs that have been created and
    not revoked. *)
Record Manager : Type := mkManager {
  assets : list Asset;
  isUploading : bool;
  objectURLs : list string
}.

Definition init : Manager := mkManager [] false [].

(** [URL.revokeObjectURL(u)] *)
Definition revoke (u : string) (urls : list string) : list string :=
  filter (fun v => negb (String.eqb v u)) urls.

(** [name.replace(/\.[^/.]+$/, '')].  The pattern matches at a dot that is
    followed, up to the end of the string, by at least one character, none
    of them a slash or a dot; the leftmost match is replaced. *)
Definition notSlashNorDot (c : ascii) : bool :=
  negb (Ascii.eqb c "/") && negb (Ascii.eqb c ".").

Fixpoint allNotSlashNorDot (s : string) : bool :=
  match s with
  | EmptyString => true
  | String c s' => notSlashNorDot c && allNotSlashNorDot s'
  end.

Definition extensionAt (s : string) : bool :=
  match s with
  | String c (String c' s') =>
      Ascii.eqb c "." && allNotSlashNorDot (String c' s')
  | _ => false
  end.

Fixpoint removeExtension (s : string) : string :=
  if extensionAt s then EmptyString
  else
    match s with
    | EmptyString => EmptyString
    | String c s' => String c (removeExtension s')
    end.

(** [`asset-${Date.now()}-${token}`], [token] being what
    [Math.random().toString(36).substr(2, 9)] gives. *)
Definition makeId (now : N) (token : string) : string :=
  ("asset-" ++ NilZero.string_of_uint (N.to_uint now) ++ "-" ++ token)%string.

Section Manager.

Variable Math_sin Math_cos : Q -> Q.
Variable Math_PI : Q.

(** A position on a circle around the origin, at ground level. *)
Definition placeAt (angle radius : Q) : Vector3 :=
  mkVector3 (Math_sin angle * radius) 0 (Math_cos angle * radius).

(** [addAsset(file)]: [fileName] is [file.name], [objectURL] what
    [URL.createObjectURL(file)] returns, and [r1], [r2], [token], [r4] and
    [r5] come from the five calls of [Math.random()], in that order.  The
    new asset is what the promise resolves with.  The scale is taken over
    the rationals; the program rounds it, so that a random number just
    below 1 gives 1.25 itself. *)
Definition addAsset (m : Manager) (fileName objectURL : string) (now : N)
    (r1 r2 : Q) (token : string) (r4 r5 : Q) : Manager * Asset :=
  let angle := r1 * Math_PI * 2 in
  let radius := 1 + r2 * 3 in
  let position := placeAt angle radius in
  let newAsset :=
    mkAsset (makeId now token) (removeExtension fileName) objectURL position
            (mkEuler 0 (r4 * Math_PI * 2) 0)
            (1 + (r5 - 0.5) * 0.5) in
  (mkManager (assets m ++ [newAsset]) false (objectURLs m ++ [objectURL]),
   newAsset).

(** [{ ...asset, ...updates }] *)
Definition applyUpdates (asset : Asset) (updates : Updates) : Asset :=
  mkAsset (id asset)
          (match u_name updates with Some v => v | None => name asset end)
          (match u_url updates with Some v => v | None => url asset end)
          (match u_position updates with
           | Some v => v | None => position asset end)
          (match u_rotation updates with
           | Some v => v | None => rotation asset end)
          (match u_scale updates with Some v => v | None => scale asset end).

Definition updateAsset (m : Manager) (id' : string) (updates : Updates)
    : Manager :=
  mkManager
    (map (fun asset =>
            if String.eqb (id asset) id' then applyUpdates asset updates
            else asset)
         (assets m))
    (isUploading m) (objectURLs m).

Definition removeAsset (m : Manager) (id' : string) : Manager :=
  let urls :=
    match find (fun a => String.eqb (id a) id') (assets m) with
    | Some asset => revoke (url asset) (objectURLs m)
    | None => objectURLs m
    end in
  mkManager (filter (fun asset => negb (String.eqb (id asset) id')) (assets m))
            (isUploading m) urls.

Definition clearAssets (m : Manager) : Manager :=
  mkManager [] (isUploading m)
            (fold_left (fun urls asset => revoke (url asset) urls)
                       (assets m) (objectURLs m)).

Definition getAssetsPositions (m : Manager) : list Vector3 :=
  map position (assets m).

(** [randomizePositions()]: [random k] is what the [k]-th call of
    [Math.random()] returns, counted from 0; each asset takes three. *)
Fixpoint randomizeFrom (random : nat -> Q) (k : nat) (l : list Asset)
    : list Asset :=
  match l with
  | [] => []
  | asset :: l' =>
      let angle := random k * Math_PI * 2 in
      let radius := 1 + random (S k) * 3 in
      mkAsset (id asset) (name asset) (url asset) (placeAt angle radius)
              (mkEuler 0 (random (S (S k)) * Math_PI * 2) 0) (scale asset)
      :: randomizeFrom random (S (S (S k))) l'
  end.

Definition randomizePositions (m : Manager) (random : nat -> Q) : Manager :=
  mkManager (randomizeFrom random 0 (assets m)) (isUploading m)
            (objectURLs m).

End Manager.

End Assets.

(** ** useVideoCapture with music and pacing

    The later version of the hook.  [startRecording] takes [enableMusic],
    locks the canvas size, and [captureFrame] delays its next call when it
    runs ahead of the 30 fps schedule.  The canvas, the audio cleanups that
    have been called and the pending cleanup timers are part of the state.
    Each function is taken as one step: what happens while it awaits is
    not interleaved with other calls. *)

Module PacedCapture.

(** An audio source, with the cleanup closure made along with it. *)
Definition Audio : Type := nat.

(** What [createAudioStreamFromFile] meets: the duration of the audio file
    when its metadata loads, whether [play()] throws, and the audio track
    of the destination stream, if there is one. *)
Record AudioEnv : Type := mkAudioEnv {
  metadata : option Q;
  playThrows : bool;
  audioTrack : option Audio
}.

Record AudioStream : Type := mkAudioStream {
  audioSource : Audio;
  currentTime : Q;
  loop : bool;
  volume : Q;
  gain : Q;
  stopTimeout : Q
}.

(** [random] is what [Math.random()] returns.  Every failure is caught and
    gives [null]. *)
Definition createAudioStreamFromFile (env : AudioEnv) (duration : Q)
    (random : Q) : option AudioStream :=
  match metadata env with
  | None => None
  | Some audioDuration =>
      let maxStartTime := Qmax 0 (audioDuration - duration) in
      let randomStartTime := random * maxStartTime in
      if playThrows env then None
      else
        let targetVolume := 0.3 in
        match audioTrack env with
        | None => None
        | Some track =>
            Some (mkAudioStream track randomStartTime true 0.3 targetVolume
                                ((duration + 1) * 1000))
        end
  end.

Record Studio : Type := mkStudio {
  encoder : Capture.Encoder;
  audioEnv : AudioEnv;
  addAudioTrackThrows : bool
}.

Record World : Type := mkWorld {
  isRecordingRef : bool;
  outputRef : option Capture.Ref;
  videoSourceRef : option Capture.Ref;
  audioSourceRef : option Audio;
  audioCleanupRef : option Audio;
  heap : list Capture.Output;
  audioTracks : list (Capture.Ref * Audio);
  cleanedUp : list Audio;
  cleanupTimers : nat;
  canvas : Capture.Canvas
}.

Definition init (canvas : Capture.Canvas) : World :=
  mkWorld false None None None None [] [] [] 0 canvas.

Record Session : Type := mkSession {
  output : Capture.Ref;
  videoSource : Capture.Ref;
  fps : Q;
  totalFrames : Q;
  frameCount : nat;
  originalCanvasWidth : Z;
  originalCanvasHeight : Z;
  startTime : Q
}.

(** How a call of [captureFrame] ends; [wait] is the delay of the
    [setTimeout] put before the next animation frame, if any. *)
Inductive Tick : Type :=
| Scheduled (s : Session) (wait : option Q)
| Resolved (video : Capture.Uint8Array)
| Rejected (error : Capture.Error).

Definition settled (t : Tick) : Prop :=
  match t with
  | Scheduled _ _ => False
  | _ => True
  end.

Section Hook.

Variable studio : Studio.

(** [random] is the number drawn for the start of the music and [now] is
    what [performance.now()] returns once the output has started. *)
Definition startRecording (w : World) (duration : Q) (enableMusic : bool)
    (random now : Q) : World * (Capture.Error + Session) :=
  if isRecordingRef w
  then (w, inl (Capture.JsError "Already recording"))
  else
    let originalCanvasWidth := Capture.width (canvas w) in
    let originalCanvasHeight := Capture.height (canvas w) in
    let r := length (heap w) in
    let music :=
      if enableMusic then
        match createAudioStreamFromFile (audioEnv studio) duration random with
        | Some audioResult =>
            if addAudioTrackThrows studio then None
            else Some (audioSource audioResult)
        | None => None
        end
      else None in
    let w1 :=
      mkWorld true (Some r) (Some r)
              (match music with
               | Some a => Some a
               | None => audioSourceRef w
               end)
              (match music with
               | Some a => Some a
               | None => audioCleanupRef w
               end)
              (heap w ++ [Capture.mkOutput Capture.Pending [] None])
              (match music with
               | Some a => audioTracks w ++ [(r, a)]
               | None => audioTracks w
               end)
              (cleanedUp w) (cleanupTimers w) (canvas w) in
    match Capture.startThrows (encoder studio) with
    | Some e => (w1, inl e)
    | None =>
        let fps := 30 in
        let totalFrames := JS.times duration fps in
        (mkWorld true (Some r) (Some r) (audioSourceRef w1)
                 (audioCleanupRef w1)
                 (Capture.store r (Capture.mkOutput Capture.Started [] None)
                                (heap w1))
                 (audioTracks w1) (cleanedUp w1) (cleanupTimers w1)
                 (canvas w1),
         inr (mkSession r r fps totalFrames 0 originalCanvasWidth
                        originalCanvasHeight now))
    end.

(** The [finally] block of [finishRecording]: the audio cleanup is left to
    a timer. *)
Definition cleanUpLater (w : World) (h : list Capture.Output) : World :=
  mkWorld false None None None (audioCleanupRef w) h (audioTracks w)
          (cleanedUp w)
          (match audioCleanupRef w with
           | Some _ => S (cleanupTimers w)
           | None => cleanupTimers w
           end)
          (canvas w).

Definition finishRecording (w : World)
    : World * (Capture.Error + Capture.Uint8Array) :=
  match outputRef w with
  | None => (w, inl (Capture.JsError "No active recording"))
  | Some r =>
      if negb (isRecordingRef w)
      then (w, inl (Capture.JsError "No active recording"))
      else
        let o := Capture.deref (heap w) r in
        match Capture.finalizeThrows (encoder studio) (Capture.added o) with
        | Some e => (cleanUpLater w (heap w), inl e)
        | None =>
            let o' :=
              Capture.mkOutput Capture.Finalized (Capture.added o)
                (Capture.mux (encoder studio) (Capture.added o)) in
            let heap' := Capture.store r o' (heap w) in
            match Capture.buffer o' with
            | None =>
                (cleanUpLater w heap',
                 inl (Capture.JsError "Failed to get video buffer"))
            | Some b => (cleanUpLater w heap', inr b)
            end
        end
  end.

(** The callback of the timer [finishRecording] sets. *)
Definition cleanupTimer (w : World) : World :=
  match cleanupTimers w with
  | O => w
  | S n =>
      mkWorld (isRecordingRef w) (outputRef w) (videoSourceRef w)
              (audioSourceRef w)
              None (heap w) (audioTracks w)
              (match audioCleanupRef w with
               | Some a => cleanedUp w ++ [a]
               | None => cleanedUp w
               end)
              n (canvas w)
  end.

Definition stopRecording (w : World) : World * option Capture.Error :=
  match outputRef w with
  | None => (w, None)
  | Some r =>
      if negb (isRecordingRef w) then (w, None)
      else
        let cleaned :=
          match audioCleanupRef w with
          | Some a => cleanedUp w ++ [a]
          | None => cleanedUp w
          end in
        match Capture.cancelThrows (encoder studio) with
        | Some e =>
            (mkWorld false None None None None (heap w) (audioTracks w)
                     cleaned (cleanupTimers w) (canvas w),
             Some e)
        | None =>
            let o := Capture.deref (heap w) r in
            (mkWorld false None None None None
                     (Capture.store r
                        (Capture.mkOutput Capture.Canceled (Capture.added o)
                                          (Capture.buffer o))
                        (heap w))
                     (audioTracks w) cleaned (cleanupTimers w) (canvas w),
             None)
        end
  end.

(** One call of [captureFrame]; [now] is what [performance.now()] returns
    after the frame has been added. *)
Definition captureFrame (w : World) (s : Session) (now : Q) : World * Tick :=
  if negb (isRecordingRef w)
     || JS.ge (JS.num (frameCount s)) (totalFrames s)
  then
    let '(w', r) := finishRecording w in
    (w', match r with
         | inl e => Rejected e
         | inr video => Resolved video
         end)
  else
    let timestampInSeconds := JS.num (frameCount s) / fps s in
    let durationInSeconds := 1 / fps s in
    let canvas' :=
      if negb (Z.eqb (Capture.width (canvas w)) (originalCanvasWidth s))
         || negb (Z.eqb (Capture.height (canvas w)) (originalCanvasHeight s))
      then Capture.mkCanvas (originalCanvasWidth s) (originalCanvasHeight s)
      else canvas w in
    let o := Capture.deref (heap w) (videoSource s) in
    let f := Capture.mkFrame timestampInSeconds durationInSeconds in
    match Capture.addThrows (encoder studio) (Capture.added o) f with
    | Some e =>
        (mkWorld (isRecordingRef w) (outputRef w) (videoSourceRef w)
                 (audioSourceRef w) (audioCleanupRef w) (heap w)
                 (audioTracks w) (cleanedUp w) (cleanupTimers w) canvas',
         Rejected e)
    | None =>
        let frameCount' := S (frameCount s) in
        let expectedTime := startTime s + JS.num frameCount' * 1000 / fps s in
        let delay := Qmax 0 (expectedTime - now) in
        (mkWorld (isRecordingRef w) (outputRef w) (videoSourceRef w)
                 (audioSourceRef w) (audioCleanupRef w)
                 (Capture.store (videoSource s)
                    (Capture.mkOutput (Capture.state o)
                                      (Capture.added o ++ [f])
                                      (Capture.buffer o))
                    (heap w))
                 (audioTracks w) (cleanedUp w) (cleanupTimers w) canvas',
         Scheduled (mkSession (output s) (videoSource s) (fps s)
                              (totalFrames s) frameCount'
                              (originalCanvasWidth s)
                              (originalCanvasHeight s) (startTime s))
                   (if JS.gt delay 10 then Some (delay - 10) else None))
    end.

(** The canvas is resized from outside. *)
Definition resize (w : World) (c : Capture.Canvas) : World :=
  mkWorld (isRecordingRef w) (outputRef w) (videoSourceRef w)
          (audioSourceRef w) (audioCleanupRef w) (heap w) (audioTracks w)
          (cleanedUp w) (cleanupTimers w) c.

(** The loop: before each call of [captureFrame] the canvas may have been
    resized, and each call reads the clock. *)
Fixpoint runCapture (events : list (option Capture.Canvas * Q)) (w : World)
    (s : Session) : World * Tick :=
  match events with
  | [] => (w, Scheduled s None)
  | (resized, now) :: events' =>
      let w0 := match resized with Some c => resize w c | None => w end in
      match captureFrame w0 s now with
      | (w', Scheduled s' _) => runCapture events' w' s'
      | ended => ended
      end
  end.

Definition submitted (w : World) (s : Session) : list Capture.Frame :=
  Capture.added (Capture.deref (heap w) (videoSource s)).

End Hook.

(** A capture of [duration] seconds in flight on a canvas locked at the
    size [c]. *)
Definition inFlight (duration : Q) (c : Capture.Canvas) (w : World)
    (s : Session) : Prop :=
  isRecordingRef w = true
  /\ outputRef w = Some (videoSource s)
  /\ (videoSource s < length (heap w))%nat
  /\ fps s = 30
  /\ totalFrames s = JS.times duration 30
  /\ originalCanvasWidth s = Capture.width c
  /\ originalCanvasHeight s = Capture.height c
  /\ submitted w s = Capture.expectedFrames (frameCount s).

End PacedCapture.

(** ** App: generating a video

    [handleGenerateVideo] of the first version of the application, which
    records without music.  The renders that go on while it awaits only
    move the camera and latch the start time of the rig, both of which
    [resetAnimation] overwrites; they are left out. *)

Module App.

Import THREE.

(** When the camera rig, rendered in video mode only, has its ref
    connected. *)
Inductive Mounting : Type :=
| AfterFrames   (* at the first check, after three animation frames *)
| AfterRetry    (* at the second check, 100 ms later *)
| Later         (* after both checks, before the capture ends *)
| Never.

Record State : Type := mkState {
  isRecording : bool;
  isVideoMode : bool;
  canvasRef : option Capture.Canvas;
  manager : Assets.Manager;
  cameraRigRef : option Rig.RigState;
  camera : Camera;
  hook : Capture.Hook;
  downloads : list (Capture.Uint8Array * string);
  alerts : list string
}.

(** What the run meets: when the rig mounts, the random number of the
    path, how many animation frames go by, and the clock. *)
Record Run : Type := mkRun {
  mounting : Mounting;
  random : Q;
  ticks : nat;
  now : N
}.

Section App.

Variable Math_sin Math_cos : Q -> Q.
Variable Math_PI : Q.
Variable encoder : Capture.Encoder.

(** The props [App] gives the rig. *)
Definition rigProps (st : State) : Rig.DynamicCameraRigProps :=
  Rig.mkProps true 20
    (Assets.getAssetsPositions (manager st)) None.

Definition fileName (now : N) : string :=
  ("dynamic-showcase-" ++ NilZero.string_of_uint (N.to_uint now)
   ++ ".mp4")%string.

(** The [finally] block. *)
Definition finish (st : State) (rig : option Rig.RigState)
    (h : Capture.Hook) (downloads' : list (Capture.Uint8Array * string))
    (alerts' : list string) : State :=
  match rig with
  | Some r =>
      let '(r', camera') := Rig.resetAnimation (rigProps st) r (camera st) in
      mkState false false (canvasRef st) (manager st) (Some r') camera'
              h downloads' alerts'
  | None =>
      mkState false false (canvasRef st) (manager st) None (camera st)
              h downloads' alerts'
  end.

(** [None] when the capture has not settled within the frames of the
    run. *)
Definition handleGenerateVideo (run : Run) (st : State) : option State :=
  match canvasRef st with
  | None => Some st
  | Some canvas =>
      if isRecording st
         || Nat.eqb (length (Assets.assets (manager st))) 0
      then Some st
      else
        let props := rigProps st in
        let started :=
          Rig.startRecordingAnimation Math_sin Math_cos Math_PI props
            (random run) (Rig.mount props) in
        let rig :=
          match mounting run with
          | AfterFrames | AfterRetry => Some started
          | Later | Never => None
          end in
        let dynamicDuration :=
          match rig with
          | Some r => Rig.getDynamicDuration r
          | None => 20
          end in
        let rigAtEnd :=
          match mounting run with
          | AfterFrames | AfterRetry => Some started
          | Later => Some (Rig.mount props)
          | Never => None
          end in
        let failed := ["Error generating video. Please try again."%string] in
        match Capture.startRecording encoder (hook st) canvas
                                     dynamicDuration with
        | (h, inl _) =>
            Some (finish st rigAtEnd h (downloads st) (alerts st ++ failed))
        | (h, inr session) =>
            match Capture.runCapture encoder (ticks run) h session with
            | (_, Capture.Scheduled _) => None
            | (h', Capture.Rejected _) =>
                Some (finish st rigAtEnd h' (downloads st)
                             (alerts st ++ failed))
            | (h', Capture.Resolved videoData) =>
                Some (finish st
                        (option_map Rig.stopRecordingAnimation rigAtEnd) h'
                        (downloads st ++ [(videoData, fileName (now run))])
                        (alerts st))
            end
        end
  end.

End App.

End App.

(** ** VideoCameraRig *)

Module VideoRig.

Import THREE.

Inductive AnimationStyle : Type :=
| Orbit | ZoomReveal | SidePan | DramaticSweep | ReelShowcase | ZoomOrbit.

Record VideoCameraRigProps : Type := mkProps {
  radius : Q;
  speed : Q;
  enabled : bool;
  animationStyle : AnimationStyle;
  duration : Q
}.

Definition withDefaults (radius' speed' : option Q) (enabled' : option bool)
    (style' : option AnimationStyle) (duration' : option Q)
    : VideoCameraRigProps :=
  mkProps (match radius' with Some v => v | None => 5 end)
          (match speed' with Some v => v | None => 0.2 end)
          (match enabled' with Some v => v | None => false end)
          (match style' with Some v => v | None => Orbit end)
          (match duration' with Some v => v | None => 5 end).

Record RigState : Type := mkRig {
  animationStartTimeRef : option Q;
  isRecordingRef : bool
}.

(** What [getAnimationPosition] returns. *)
Record Shot : Type := mkShot {
  position : Vector3;
  lookAt : Vector3
}.

Section Component.

Variable Math_sin Math_cos : Q -> Q.
Variable Math_PI : Q.
Variable props : VideoCameraRigProps.

Definition startRecordingAnimation (st : RigState) : RigState :=
  mkRig None true.

Definition stopRecordingAnimation (st : RigState) : RigState :=
  mkRig None false.

Definition resetAnimation (st : RigState) (camera : Camera)
    : RigState * Camera :=
  (mkRig None false,
   mkCamera (mkVector3 0 2 5) (mkVector3 0 1 0) (cam_fov camera)).

Definition getAnimationPosition (progress : Q) : Shot :=
  let targetPosition := mkVector3 0 1 0 in
  match animationStyle props with
  | ZoomReveal =>
      let startDistance := 15 in
      let endDistance := 3 in
      let distance := lerp startDistance endDistance progress in
      let angle := progress * Math_PI * 0.3 in
      mkShot (mkVector3 (Math_sin angle * distance)
                        (2 + Math_sin (progress * Math_PI) * 1.5)
                        (Math_cos angle * distance))
             targetPosition
  | SidePan =>
      let distance := radius props - progress * 1.5 in
      let panRange := 4 in
      let x := Math_sin (progress * Math_PI * 2) * panRange in
      mkShot (mkVector3 x 2.5 distance) targetPosition
  | DramaticSweep =>
      let angle := progress * Math_PI * 1.5 in
      let height := 0.5 + progress * 3 in
      let distance := radius props + Math_sin (progress * Math_PI) * 2 in
      mkShot (mkVector3 (Math_sin angle * distance) height
                        (Math_cos angle * distance))
             (mkVector3 0 (1 + progress * 0.5) 0)
  | ReelShowcase =>
      if JS.lt progress 0.3 then
        let p := progress / 0.3 in
        let distance := lerp 8 3 p in
        mkShot (mkVector3 (distance * 0.3) 1.5 distance)
               (mkVector3 0 1.2 0)
      else if JS.lt progress 0.7 then
        let p := (progress - 0.3) / 0.4 in
        let angle := p * Math_PI in
        let distance := 4 in
        mkShot (mkVector3 (Math_sin angle * distance)
                          (2 + Math_sin (p * Math_PI * 2) * 0.5)
                          (Math_cos angle * distance))
               targetPosition
      else
        let p := (progress - 0.7) / 0.3 in
        let distance := lerp 4 7 p in
        mkShot (mkVector3 (Math_sin Math_PI * distance)
                          (3 + p * 1)
                          (Math_cos Math_PI * distance))
               targetPosition
  | ZoomOrbit =>
      let angle := progress * Math_PI * 2 in
      let distance := radius props + Math_sin (progress * Math_PI) * 3 in
      mkShot (mkVector3 (Math_sin angle * distance)
                        (2 + Math_sin (progress * Math_PI * 3) * 0.8)
                        (Math_cos angle * distance))
             targetPosition
  | Orbit =>
      let angle := progress * Math_PI * 2 * speed props in
      mkShot (mkVector3 (Math_sin angle * radius props)
                        (2 + Math_sin (progress * Math_PI * 2) * 0.5)
                        (Math_cos angle * radius props))
             targetPosition
  end.

(** The refs after the start time has been latched, and [progress]. *)
Definition frameProgress (st : RigState) (clock : Clock) : RigState * Q :=
  if isRecordingRef st then
    let start :=
      match animationStartTimeRef st with
      | Some s => s
      | None => atLatch clock
      end in
    let t := atQuery clock - start in
    (mkRig (Some start) (isRecordingRef st), Qmin (t / duration props) 1)
  else
    let t := atQuery clock in
    (st, JS.rem (t * 0.1) 1).

(** [useFrame(({ clock }) => ...)] *)
Definition useFrame (st : RigState) (camera : Camera) (clock : Clock)
    : RigState * Camera :=
  if negb (enabled props) then (st, camera)
  else
    let '(st', progress) := frameProgress st clock in
    let shot := getAnimationPosition progress in
    (st', mkCamera (lerpTo (cam_position camera) (position shot) 0.1)
                   (lookAt shot) (cam_fov camera)).

End Component.

End VideoRig.

(** ** How a capture ends *)

Module CaptureOutcome.

Import Capture.

(** What the call that follows the last frame settles the promise with,
    by what the encoder does on [finalize]: the tail of [finishRecording]. *)
Definition outcome (encoder : Encoder) (frames : list Frame) : Tick :=
  match finalizeThrows encoder frames with
  | Some e => Rejected e
  | None =>
      match mux encoder frames with
      | Some video => Resolved video
      | None => Rejected (JsError "Failed to get video buffer")
      end
  end.

End CaptureOutcome.

(** ** More concrete inputs *)

Module MoreSamples.

Import THREE.

(** Two assets under management, with their object URLs. *)
Definition chair : Assets.Asset :=
  Assets.mkAsset "asset-1-aaa" "chair" "blob:1" (mkVector3 1 0 0)
                 (Assets.mkEuler 0 1 0) 1.

Definition lamp : Assets.Asset :=
  Assets.mkAsset "asset-2-bbb" "lamp" "blob:2" (mkVector3 0 0 2)
                 (Assets.mkEuler 0 2 0) 1.1.

Definition twoManaged : Assets.Manager :=
  Assets.mkManager [chair; lamp] false ["blob:1"; "blob:2"]%string.

(** A rig of the older camera component, sweeping for five seconds. *)
Definition sweep : VideoRig.VideoCameraRigProps :=
  VideoRig.mkProps 5 0.2 true VideoRig.DramaticSweep 5.

(** The application with the two assets, ready to generate. *)
Definition ready : App.State :=
  App.mkState false false (Some Samples.canvas) twoManaged None
              Samples.perspective Capture.init [] [].

End MoreSamples.

(** * Properties *)

(** ** Comparisons and rounding *)

Module JSFacts.

Lemma le_spec a b : JS.le a b = true <-> a <= b.
Proof. apply Qle_bool_iff. Qed.

Lemma ge_spec a b : JS.ge a b = true <-> b <= a.
Proof. apply Qle_bool_iff. Qed.

Lemma lt_spec a b : JS.lt a b = true <-> a < b.
Proof.
  unfold JS.lt. rewrite negb_true_iff.
  destruct (Qle_bool b a) eqn:E.
  - apply Qle_bool_iff in E. split; [discriminate | intro; lra].
  - split; [intros _ | reflexivity].
    destruct (Qlt_le_dec a b) as [H | H]; [exact H |].
    apply Qle_bool_iff in H. congruence.
Qed.

Lemma gt_spec a b : JS.gt a b = true <-> b < a.
Proof. apply (lt_spec b a). Qed.

Lemma le_false a b : JS.le a b = false <-> b < a.
Proof.
  rewrite <- lt_spec. unfold JS.lt, JS.le.
  destruct (Qle_bool a b); simpl; split; congruence.
Qed.

Lemma ge_false a b : JS.ge a b = false <-> a < b.
Proof. apply (le_false b a). Qed.

Lemma num_nonneg n : 0 <= JS.num n.
Proof.
  unfold JS.num. change 0 with (inject_Z 0). rewrite <- Zle_Qle. lia.
Qed.

Lemma num_S n : JS.num (S n) == JS.num n + 1.
Proof.
  unfold JS.num. rewrite Nat2Z.inj_succ. unfold Z.succ.
  rewrite inject_Z_plus. reflexivity.
Qed.

Lemma num_le n m : (n <= m)%nat -> JS.num n <= JS.num m.
Proof. intro H. unfold JS.num. rewrite <- Zle_Qle. lia. Qed.

Lemma num_lt n m : (n < m)%nat -> JS.num n < JS.num m.
Proof. intro H. unfold JS.num. rewrite <- Zlt_Qlt. lia. Qed.

(** *** Doubles *)

Lemma double_comp : forall a b, a == b -> JS.double a = JS.double b.
Proof.
  intros a b H. unfold JS.double.
  rewrite (Qred_complete a b H).
  assert (Hs : (Qnum a <? 0)%Z = (Qnum b <? 0)%Z).
  { unfold Qeq in H.
    destruct (Z.ltb_spec (Qnum a) 0), (Z.ltb_spec (Qnum b) 0); auto; nia. }
  now rewrite Hs.
Qed.

Lemma Qred_whole : forall z, Qred (inject_Z z) = inject_Z z.
Proof.
  intro z. unfold Qred, inject_Z.
  pose proof (Z.ggcd_gcd z 1) as Hg.
  pose proof (Z.ggcd_correct_divisors z 1) as Hd.
  destruct (Z.ggcd z 1) as [g [aa bb]]. simpl in *.
  rewrite Z.gcd_1_r in Hg. subst g. destruct Hd as [Ha Hb].
  replace aa with z by lia. replace bb with 1%Z by lia. reflexivity.
Qed.

(** Whole numbers below [2 ^ 53] in size are doubles. *)
Lemma double_whole :
  forall z, (Z.abs z < 2 ^ 53)%Z -> JS.double (inject_Z z) = inject_Z z.
Proof.
  intros z H53. unfold JS.double. rewrite Qred_whole.
  simpl Qnum. simpl Qden.
  destruct (Z.eqb_spec (Z.abs z) 0) as [Hz0 | Hz];
    [replace z with 0%Z by lia; reflexivity |].
  set (n := Z.abs z) in *.
  assert (Hpos : (0 < n)%Z) by lia.
  assert (Hlog : (0 <= Z.log2 n < 53)%Z).
  { split; [apply Z.log2_nonneg |]. apply Z.log2_lt_pow2; lia. }
  assert (He : JS.exponent n 1 = Z.log2 n).
  { unfold JS.exponent, JS.scale2. change (Z.log2 1) with 0%Z.
    rewrite Z.sub_0_r, Z.max_r, Z.max_l by lia.
    pose proof (Z.log2_spec n Hpos) as [Hlo _].
    destruct (Z.leb_spec (1 * 2 ^ Z.log2 n) (n * 2 ^ 0)); [reflexivity |].
    change (2 ^ 0)%Z with 1%Z in *. lia. }
  rewrite He.
  set (e := (Z.log2 n - 52)%Z).
  assert (Hs1 : JS.scale2 e = 1%Z).
  { unfold JS.scale2. rewrite Z.max_l by lia. reflexivity. }
  assert (Hs2 : JS.scale2 (- e) = (2 ^ (- e))%Z).
  { unfold JS.scale2. rewrite Z.max_r by lia. reflexivity. }
  rewrite Hs1, Hs2.
  assert (Hp : (0 < 2 ^ (- e))%Z) by (apply Z.pow_pos_nonneg; lia).
  assert (Hm : JS.halfEven (n * 2 ^ (- e)) (1 * 1) = (n * 2 ^ (- e))%Z).
  { unfold JS.halfEven. change (1 * 1)%Z with 1%Z.
    rewrite Z.mod_1_r, Z.div_1_r. reflexivity. }
  rewrite Hm.
  assert (Hr : Qred (inject_Z (n * 2 ^ (- e) * 1) / inject_Z (2 ^ (- e)))
               = inject_Z n).
  { transitivity (Qred (inject_Z n)); [| apply Qred_whole].
    apply Qred_complete.
    rewrite Z.mul_1_r, inject_Z_mult. field.
    intro Hc. unfold Qeq in Hc. simpl in Hc. lia. }
  rewrite Hr.
  destruct (Z.ltb_spec z 0) as [Hneg | Hnn].
  - unfold Qopp, inject_Z. simpl. f_equal. lia.
  - f_equal. lia.
Qed.

(** The product of two whole numbers is exact as long as it is below
    [2 ^ 53] in size. *)
Lemma times_whole :
  forall (a b : Q) (z : Z),
    a * b == inject_Z z ->
    (Z.abs z < 2 ^ 53)%Z ->
    JS.times a b = inject_Z z.
Proof.
  intros a b z E H. unfold JS.times.
  rewrite (double_comp _ _ E). now apply double_whole.
Qed.

End JSFacts.

(** ** The camera rig *)

Module RigFacts.

Import THREE Rig JSFacts Samples.

(** *** Duration of a generated path *)

Example duration_three_assets :
  forall sn cs pi a b c r,
    dynamicDuration
      (generateRandomKeyframes sn cs pi (mkProps true 20 [a; b; c] None) r)
    == 20.
Proof. intros. reflexivity. Qed.

Example duration_five_assets :
  forall sn cs pi a b c d e r,
    dynamicDuration
      (generateRandomKeyframes sn cs pi (mkProps true 20 [a; b; c; d; e] None) r)
    == 26.
Proof. intros. reflexivity. Qed.

(** C3.  With two assets or more, the duration the generator returns, which
    is the one [startRecordingAnimation] stores and [getDynamicDuration]
    reads back, is [max(20, 6 + assetCount * 4)]. *)
Theorem multi_asset_duration :
  forall sn cs pi props random st,
    (2 <= length (assetsPositions props))%nat ->
    let n := JS.num (length (assetsPositions props)) in
    dynamicDuration (generateRandomKeyframes sn cs pi props random)
      = Qmax 20 (6 + n * 4)
    /\ getDynamicDuration (startRecordingAnimation sn cs pi props random st)
      = Qmax 20 (6 + n * 4).
Proof.
  intros sn cs pi props random st Hlen n. subst n.
  unfold getDynamicDuration, startRecordingAnimation. simpl.
  unfold generateRandomKeyframes.
  destruct (assetsPositions props) as [| a [| b l]]; simpl in Hlen; try lia.
  split; reflexivity.
Qed.

Lemma multi_asset_duration_witness :
  dynamicDuration (generateRandomKeyframes sin0 cos1 pi twoAssets 0.5)
  = Qmax 20 (6 + JS.num 2 * 4).
Proof.
  apply (multi_asset_duration sin0 cos1 pi twoAssets 0.5 (mount twoAssets)).
  simpl. lia.
Defined.

(** *** The empty keyframe list *)



(** *** The empty asset list *)

(** The path generated for no asset at all has five keyframes. *)
Lemma empty_assets_not_single_keyframe :
  length (keyframes (generateRandomKeyframes sin0 cos1 pi noAssets 0.5))
  <> 1%nat.
Proof. simpl. discriminate. Qed.

(** C9, as the code has it.  For an empty asset list the generator returns
    the four introduction keyframes and the final keyframe, at times 0, 2,
    4, 6 and 20, all of them looking at the origin, and a duration of 20
    seconds. *)
Theorem empty_assets_default_path :
  forall sn cs pi props random,
    assetsPositions props = [] ->
    let g := generateRandomKeyframes sn cs pi props random in
    map time (keyframes g) = [0; 2; 4; 6; 20]
    /\ Forall (fun k => lookAt k = mkVector3 0 0 0) (keyframes g)
    /\ dynamicDuration g = 20.
Proof.
  intros sn cs pi props random Hempty g. subst g.
  unfold generateRandomKeyframes. rewrite Hempty.
  unfold generateMultiAssetAnimation, multiAssetMovements. simpl.
  repeat split. repeat constructor.
Qed.

Lemma empty_assets_default_path_witness :
  map time (keyframes (generateRandomKeyframes sin0 cos1 pi noAssets 0.5))
  = [0; 2; 4; 6; 20].
Proof.
  apply (empty_assets_default_path sin0 cos1 pi noAssets 0.5).
  reflexivity.
Defined.

(** *** The time the interpolator is queried at *)

Lemma queryTimes_latched :
  forall props st start clocks,
    enabled props = true ->
    isRecordingRef st = true ->
    animationStartTimeRef st = Some start ->
    queryTimes props st clocks = map (fun c => atQuery c - start) clocks.
Proof.
  intros props st start clocks Hen. revert st.
  induction clocks as [| c clocks IH]; intros st Hrec Hstart; simpl.
  - reflexivity.
  - rewrite Hen. simpl. unfold frameTime. rewrite Hrec, Hstart.
    f_equal. apply IH; reflexivity.
Qed.

(** While recording, the second render of a session whose render clock
    reads 10 and then 10.5 seconds queries the interpolator at 0.5, whereas
    the capture loop stamps its second frame 1/30. *)
Lemma recording_time_not_frame_index :
  ~ (forall clocks i,
       (i < length clocks)%nat ->
       nth i (queryTimes oneAsset
                (startRecordingAnimation sin0 cos1 pi oneAsset 0.5
                   (mount oneAsset))
                clocks) 0
       == Capture.timestampInSeconds
            (Capture.nextFrame (Capture.mkSession 0%nat 0%nat 30 600 i))).
Proof.
  intro H. specialize (H [still 10; still 10.5] 1%nat). simpl in H.
  assert (Hi : (1 < 2)%nat) by lia. specialize (H Hi).
  vm_compute in H. discriminate.
Qed.

(** C1, as the code has it.  While recording, the time the interpolator is
    queried at on a render is the reading of the render clock on that
    render minus the reading latched on the first render of the recording.
    The first render reads the clock twice, once to latch the start and
    once more to subtract it, so that its own query is at the time that
    went by between the two readings: 0 only when they agree. *)
Theorem recording_time_is_clock_elapsed :
  forall props st c0 clocks,
    enabled props = true ->
    isRecordingRef st = true ->
    animationStartTimeRef st = None ->
    queryTimes props st (c0 :: clocks)
      = map (fun c => atQuery c - atLatch c0) (c0 :: clocks)
    /\ (atQuery c0 == atLatch c0 ->
        nth 0 (queryTimes props st (c0 :: clocks)) 0 == 0).
Proof.
  intros props st c0 clocks Hen Hrec Hstart.
  assert (E : queryTimes props st (c0 :: clocks)
              = map (fun c => atQuery c - atLatch c0) (c0 :: clocks)).
  { simpl. rewrite Hen. simpl. unfold frameTime. rewrite Hrec, Hstart.
    f_equal. apply queryTimes_latched; auto. }
  split; [exact E |].
  intro Hsame. rewrite E. simpl. rewrite Hsame. ring.
Qed.

Lemma recording_time_is_clock_elapsed_witness :
  queryTimes oneAsset
    (startRecordingAnimation sin0 cos1 pi oneAsset 0.5 (mount oneAsset))
    [mkClock 10 10.001; still 10.5; still 12]
  = [10.001 - 10; 10.5 - 10; 12 - 10].
Proof.
  apply (recording_time_is_clock_elapsed oneAsset
           (startRecordingAnimation sin0 cos1 pi oneAsset 0.5 (mount oneAsset))
           (mkClock 10 10.001) [still 10.5; still 12]); reflexivity.
Defined.

(** *** Interpolation between keyframes *)

Lemma last_cons_default :
  forall (k : CameraKeyframe) l d, last (k :: l) d = last l k.
Proof.
  intros k l. revert k.
  induction l as [| k' l IH]; intros k d; [reflexivity |].
  change (last (k :: k' :: l) d) with (last (k' :: l) d).
  rewrite (IH k' d), (IH k' k). reflexivity.
Qed.

Lemma ascending_head_le :
  forall k l k', ascending (k :: l) -> In k' (k :: l) -> time k <= time k'.
Proof.
  intros k l k' Hs Hin. apply StronglySorted_inv in Hs as [_ Hall].
  destruct Hin as [<- | Hin]; [lra |].
  rewrite Forall_forall in Hall. auto.
Qed.

Lemma ascending_le_last :
  forall l k d, ascending l -> In k l -> time k <= time (last l d).
Proof.
  induction l as [| k0 l IH]; intros k d Hs Hin; [contradiction |].
  destruct l as [| k1 l].
  - destruct Hin as [<- | []]. simpl. lra.
  - change (last (k0 :: k1 :: l) d) with (last (k1 :: l) d).
    destruct Hin as [<- | Hin].
    + apply (ascending_head_le k0 (k1 :: l)); [exact Hs |].
      right. destruct (exists_last (l := k1 :: l)) as (l' & z & E);
        [discriminate |].
      rewrite E, last_last, <- E. rewrite E. apply in_or_app. right. now left.
    + apply IH; [| exact Hin]. now apply StronglySorted_inv in Hs.
Qed.

Lemma findInterval_ascending :
  forall c pre a b post,
    ascending (pre ++ a :: b :: post) ->
    time a < c -> c < time b ->
    findInterval c (pre ++ a :: b :: post) = Some (a, b).
Proof.
  intros c pre a b post. induction pre as [| p pre IH]; intros Hs Ha Hb.
  - simpl.
    assert (E1 : JS.ge c (time a) = true) by (apply ge_spec; lra).
    assert (E2 : JS.le c (time b) = true) by (apply le_spec; lra).
    rewrite E1, E2. reflexivity.
  - assert (Hs' : ascending (pre ++ a :: b :: post))
      by (now apply StronglySorted_inv in Hs).
    specialize (IH Hs' Ha Hb).
    change ((p :: pre) ++ a :: b :: post)
      with (p :: (pre ++ a :: b :: post)).
    destruct (pre ++ a :: b :: post) as [| n rest] eqn:E;
      [destruct pre; discriminate |].
    assert (Hn : time n <= time a).
    { apply (ascending_head_le n rest); [exact Hs' |].
      rewrite <- E. apply in_or_app. right. now left. }
    assert (E2 : JS.le c (time n) = false) by (apply le_false; lra).
    simpl. rewrite E2, andb_false_r. exact IH.
Qed.

(** Between the keyframes kfA (field of view 50) and kfB (field of view
    90), a quarter of the way, the recording rig returns the field of view
    56.25, not the 60 a blend by the raw factor gives. *)
Lemma fov_not_blended_by_raw_factor :
  ~ (pose_fov (interpolateKeyframes recordingAB 1)
     == lerp (JS.or_default (fov kfA) 50) (JS.or_default (fov kfB) 50)
             (blendFactor (clampTime recordingAB 1) kfA kfB)).
Proof. vm_compute. discriminate. Qed.

(** C5, as the code has it.  For keyframes in ascending order of time and
    a query time that, once clamped, lies strictly between two consecutive
    keyframes, position, look-at and field of view are all three blended
    with the eased factor [ease recording t], where [t] is the fraction of
    the interval elapsed; a missing (or zero) field of view counts as 50. *)
Theorem interpolation_uses_eased_factor :
  forall st pre a b post currentTime,
    keyframesRef st = pre ++ a :: b :: post ->
    ascending (keyframesRef st) ->
    time a < clampTime st currentTime ->
    clampTime st currentTime < time b ->
    let t := (clampTime st currentTime - time a) / (time b - time a) in
    let easedT := ease (isRecordingRef st) t in
    interpolateKeyframes st currentTime
    = mkPose (lerpVectors (position a) (position b) easedT)
             (lerpVectors (lookAt a) (lookAt b) easedT)
             (lerp (JS.or_default (fov a) 50) (JS.or_default (fov b) 50)
                   easedT).
Proof.
  intros st pre a b post currentTime Hk Hs Ha Hb t easedT.
  subst t easedT. unfold interpolateKeyframes.
  set (c := clampTime st currentTime) in *.
  pose proof (findInterval_ascending c pre a b post) as Hfind.
  rewrite <- Hk in Hfind. specialize (Hfind Hs Ha Hb).
  assert (Hina : In a (keyframesRef st))
    by (rewrite Hk; apply in_or_app; right; now left).
  assert (Hinb : In b (keyframesRef st))
    by (rewrite Hk; apply in_or_app; right; right; now left).
  destruct (keyframesRef st) as [| first rest] eqn:E; [contradiction |].
  assert (H1 : JS.le c (time first) = false).
  { apply le_false. pose proof (ascending_head_le first rest a Hs Hina). lra. }
  assert (H2 : JS.ge c (time (last (first :: rest) first)) = false).
  { apply ge_false.
    pose proof (ascending_le_last (first :: rest) b first Hs Hinb). lra. }
  rewrite H1, H2, Hfind. unfold blendFactor.
  assert (H3 : JS.gt (time b - time a) 0 = true) by (apply gt_spec; lra).
  rewrite H3. reflexivity.
Qed.

Lemma interpolation_uses_eased_factor_witness :
  interpolateKeyframes recordingAB 1
  = mkPose
      (lerpVectors (position kfA) (position kfB)
         (ease true ((clampTime recordingAB 1 - 0) / (4 - 0))))
      (lerpVectors (lookAt kfA) (lookAt kfB)
         (ease true ((clampTime recordingAB 1 - 0) / (4 - 0))))
      (lerp 50 90 (ease true ((clampTime recordingAB 1 - 0) / (4 - 0)))).
Proof.
  apply (interpolation_uses_eased_factor recordingAB [] kfA kfB [] 1).
  - reflexivity.
  - repeat constructor. simpl. lra.
  - vm_compute. reflexivity.
  - vm_compute. reflexivity.
Defined.

(** *** Clamping to the first and the last keyframe *)

Lemma interpolate_at_first :
  forall st first rest currentTime,
    keyframesRef st = first :: rest ->
    clampTime st currentTime <= time first ->
    interpolateKeyframes st currentTime = keyframePose first.
Proof.
  intros st first rest currentTime Hk Hc.
  unfold interpolateKeyframes. rewrite Hk.
  apply le_spec in Hc. now rewrite Hc.
Qed.

Lemma interpolate_at_last :
  forall st first rest currentTime,
    keyframesRef st = first :: rest ->
    time first < clampTime st currentTime ->
    time (last rest first) <= clampTime st currentTime ->
    interpolateKeyframes st currentTime = keyframePose (last rest first).
Proof.
  intros st first rest currentTime Hk Hfirst Hlast.
  unfold interpolateKeyframes. rewrite Hk, last_cons_default.
  apply le_false in Hfirst. apply ge_spec in Hlast.
  now rewrite Hfirst, Hlast.
Qed.

Lemma clampTime_le :
  forall st currentTime bound,
    0 <= bound -> currentTime <= bound -> clampTime st currentTime <= bound.
Proof.
  intros st currentTime bound H0 Hq. unfold clampTime.
  apply Q.max_lub; [exact H0 |].
  pose proof (Q.le_min_l currentTime (dynamicDurationRef st)). lra.
Qed.

Lemma clampTime_ge :
  forall st currentTime bound,
    bound <= currentTime -> bound <= dynamicDurationRef st ->
    bound <= clampTime st currentTime.
Proof.
  intros st currentTime bound Hq HD. unfold clampTime.
  pose proof (Q.min_glb currentTime (dynamicDurationRef st) _ Hq HD).
  pose proof (Q.le_max_r 0 (Qmin currentTime (dynamicDurationRef st))). lra.
Qed.




(** *** The sort of the generated keyframes *)

Lemma insertByTime_perm :
  forall k l, Permutation (k :: l) (insertByTime k l).
Proof.
  intros k l. induction l as [| k' l IH]; simpl.
  - apply Permutation_refl.
  - destruct (JS.le (time k) (time k')).
    + apply Permutation_refl.
    + eapply perm_trans; [apply perm_swap |]. now apply perm_skip.
Qed.

Lemma sortByTime_perm : forall l, Permutation l (sortByTime l).
Proof.
  induction l as [| k l IH]; simpl; [constructor |].
  eapply perm_trans; [| apply insertByTime_perm]. now apply perm_skip.
Qed.

Lemma insertByTime_ascending :
  forall k l, ascending l -> ascending (insertByTime k l).
Proof.
  intros k l. induction l as [| k' l IH]; intro Hs; simpl.
  - repeat constructor.
  - destruct (JS.le (time k) (time k')) eqn:E.
    + apply le_spec in E. constructor; [exact Hs |].
      constructor; [exact E |].
      apply StronglySorted_inv in Hs as [_ Hall].
      eapply Forall_impl; [| exact Hall]. simpl. intros; lra.
    + apply le_false in E.
      apply StronglySorted_inv in Hs as [Hs Hall].
      constructor; [now apply IH |].
      eapply Permutation_Forall; [apply insertByTime_perm |].
      constructor; [lra | exact Hall].
Qed.

Lemma sortByTime_ascending : forall l, ascending (sortByTime l).
Proof.
  induction l as [| k l IH]; simpl; [constructor |].
  now apply insertByTime_ascending.
Qed.

(** A keyframe not later than any other stays in front. *)
Lemma insertByTime_earliest :
  forall k l,
    Forall (fun k' => time k <= time k') l -> insertByTime k l = k :: l.
Proof.
  intros k [| k' l] Hall; [reflexivity |]. simpl.
  apply Forall_inv in Hall. apply le_spec in Hall. now rewrite Hall.
Qed.

Lemma sortByTime_earliest :
  forall k l,
    Forall (fun k' => time k <= time k') l ->
    sortByTime (k :: l) = k :: sortByTime l.
Proof.
  intros k l Hall. simpl. apply insertByTime_earliest.
  eapply Permutation_Forall; [apply sortByTime_perm | exact Hall].
Qed.

(** A keyframe pushed last and not earlier than any other stays last. *)
Lemma insertByTime_before_latest :
  forall k l f,
    time k <= time f -> insertByTime k (l ++ [f]) = insertByTime k l ++ [f].
Proof.
  intros k l f Hle. induction l as [| k' l IH]; simpl.
  - apply le_spec in Hle. now rewrite Hle.
  - destruct (JS.le (time k) (time k')); [reflexivity |].
    now rewrite IH.
Qed.

Lemma sortByTime_latest :
  forall l f,
    Forall (fun k => time k <= time f) l ->
    sortByTime (l ++ [f]) = sortByTime l ++ [f].
Proof.
  induction l as [| k l IH]; intros f Hall; [reflexivity |].
  apply Forall_cons_iff in Hall as [Hk Hall]. simpl.
  rewrite (IH f Hall). now apply insertByTime_before_latest.
Qed.

(** A list already in ascending order is left as it is. *)
Lemma sortByTime_ascending_id :
  forall l, ascending l -> sortByTime l = l.
Proof.
  induction l as [| k l IH]; intro Hs; [reflexivity |].
  apply StronglySorted_inv in Hs as [Hs Hall].
  rewrite sortByTime_earliest by exact Hall. now rewrite IH.
Qed.

(** *** The tour of the assets *)

Lemma slot_bounds :
  forall n j tpa D : Q,
    0 <= j -> j + 1 <= n -> 0 <= tpa -> tpa * n == D - 6 ->
    0 <= 6 + j * tpa
    /\ 6 + j * tpa + tpa * 0.5 <= D
    /\ (j + 2 <= n -> 6 + j * tpa + tpa <= D).
Proof.
  intros n j tpa D Hj Hn Ht HD.
  assert (H1 : 0 <= j * tpa) by (apply Qmult_le_0_compat; assumption).
  assert (H2 : 0 <= (n - j - 1) * tpa) by (apply Qmult_le_0_compat; lra).
  split; [lra |]. split; [lra |].
  intro H3.
  assert (H4 : 0 <= (n - j - 2) * tpa) by (apply Qmult_le_0_compat; lra).
  lra.
Qed.

Lemma timePerAsset_spec :
  forall n : nat,
    (0 < n)%nat ->
    let D := Qmax 20 (6 + JS.num n * 4) in
    let tpa := (D - 6) / JS.num n in
    20 <= D /\ 0 <= tpa /\ tpa * JS.num n == D - 6.
Proof.
  intros n Hn D tpa.
  assert (HN : 0 < JS.num n) by (apply (num_lt 0 n); exact Hn).
  assert (HD : 20 <= D) by apply Q.le_max_l.
  assert (E : tpa * JS.num n == D - 6)
    by (unfold tpa; field; intro E0; rewrite E0 in HN; lra).
  repeat split; [exact HD | | exact E].
  destruct (Qlt_le_dec tpa 0) as [Hneg | Hpos]; [| exact Hpos]. nra.
Qed.

(** The callback only pushes, whatever the time allotted to an asset. *)
Lemma tourCallback_app :
  forall sn cs assets baseAngle tpa movements asset index,
    tourCallback sn cs assets baseAngle tpa movements asset index
    = movements ++ tourCallback sn cs assets baseAngle tpa [] asset index.
Proof.
  intros. unfold tourCallback.
  destruct (S index <? length assets)%nat; simpl;
    repeat rewrite <- app_assoc; reflexivity.
Qed.

Lemma forEachFrom_app :
  forall sn cs assets baseAngle tpa arr index movements,
    exists tour,
      forEachFrom (tourCallback sn cs assets baseAngle tpa) index arr movements
      = movements ++ tour.
Proof.
  intros sn cs assets baseAngle tpa.
  induction arr as [| asset arr IH]; intros index movements; simpl.
  - exists []. now rewrite app_nil_r.
  - destruct (IH (S index)
                (tourCallback sn cs assets baseAngle tpa movements asset index))
      as (tour & E).
    rewrite E, tourCallback_app, <- app_assoc. eauto.
Qed.

(** The first asset's approach keyframe is pushed right after the
    introduction, and has the time of its last keyframe. *)
Lemma first_approach_at_six :
  forall sn cs props center asset arr baseAngle,
    exists approach rest,
      multiAssetMovements sn cs props center (asset :: arr) baseAngle
      = introMovements sn cs props center baseAngle ++ approach :: rest
      /\ time approach == 6.
Proof.
  intros sn cs props center asset arr baseAngle.
  unfold multiAssetMovements, forEach.
  set (tpa := (_ - introDuration) / _).
  change (forEachFrom (tourCallback sn cs (asset :: arr) baseAngle tpa) 0
            (asset :: arr) (introMovements sn cs props center baseAngle))
    with (forEachFrom (tourCallback sn cs (asset :: arr) baseAngle tpa) 1
            arr
            (tourCallback sn cs (asset :: arr) baseAngle tpa
               (introMovements sn cs props center baseAngle) asset 0%nat)).
  destruct (forEachFrom_app sn cs (asset :: arr) baseAngle tpa arr 1
              (tourCallback sn cs (asset :: arr) baseAngle tpa
                 (introMovements sn cs props center baseAngle) asset 0%nat))
    as (tour & ->).
  rewrite tourCallback_app. unfold tourCallback at 1.
  destruct (1 <? length (asset :: arr))%nat;
    repeat rewrite <- app_assoc; simpl app;
    (eexists; eexists; split; [reflexivity |]);
    simpl; unfold introDuration, JS.num; simpl; ring.
Qed.

Section Tour.

Variable Math_sin Math_cos : Q -> Q.
Variable props : DynamicCameraRigProps.
Variable assets : list Vector3.
Variable baseAngle : Q.

Let D : Q := Qmax 20 (6 + JS.num (length assets) * 4).
Let timePerAsset : Q := (D - 6) / JS.num (length assets).
Let callback :=
  tourCallback Math_sin Math_cos assets baseAngle timePerAsset.

Lemma tourCallback_bounds :
  forall asset index,
    (index < length assets)%nat ->
    Forall (fun k => 0 <= time k <= D) (callback [] asset index).
Proof.
  intros asset index Hlt.
  destruct (timePerAsset_spec (length assets)) as (HD & Ht & E); [lia |].
  fold D in HD, Ht, E. fold timePerAsset in Ht, E.
  assert (Hj : 0 <= JS.num index) by apply num_nonneg.
  assert (Hn : JS.num index + 1 <= JS.num (length assets))
    by (rewrite <- num_S; apply num_le; lia).
  destruct (slot_bounds _ _ _ _ Hj Hn Ht E) as (B1 & B2 & B3).
  unfold callback, tourCallback, introDuration.
  destruct (S index <? length assets)%nat eqn:Enext; simpl.
  - apply Nat.ltb_lt in Enext.
    assert (Hn2 : JS.num index + 2 <= JS.num (length assets)).
    { assert (H2 : JS.num (S (S index)) == JS.num index + 2)
        by (rewrite !num_S; ring).
      rewrite <- H2. apply num_le. lia. }
    specialize (B3 Hn2).
    repeat constructor; simpl; nra.
  - repeat constructor; simpl; nra.
Qed.

Lemma forEachFrom_tour :
  forall arr index movements,
    (index + length arr <= length assets)%nat ->
    Forall (fun k => 0 <= time k <= D) movements ->
    exists tour,
      forEachFrom callback index arr movements = movements ++ tour
      /\ Forall (fun k => 0 <= time k <= D) tour.
Proof.
  induction arr as [| asset arr IH]; intros index movements Hlen Hall; simpl.
  - exists []. rewrite app_nil_r. split; [reflexivity | constructor].
  - simpl in Hlen. unfold callback at 2. rewrite tourCallback_app.
    fold callback.
    assert (Hpush : Forall (fun k => 0 <= time k <= D)
                           (callback [] asset index))
      by (apply tourCallback_bounds; lia).
    destruct (IH (S index) (movements ++ callback [] asset index))
      as (tour & E & Htour).
    + lia.
    + apply Forall_app. split; assumption.
    + exists (callback [] asset index ++ tour). rewrite E, <- app_assoc.
      split; [reflexivity |]. apply Forall_app. split; assumption.
Qed.

(** With at least one asset, the sorted keyframes are the first
    introduction keyframe, then the sorted rest, then the final keyframe. *)
Lemma multiAsset_shape :
  forall center,
    (0 < length assets)%nat ->
    exists first middle,
      keyframes (generateMultiAssetAnimation Math_sin Math_cos props
                   center assets baseAngle)
      = first :: middle ++ [finalMovement Math_sin Math_cos center baseAngle D]
      /\ time first = 0
      /\ ascending (first :: middle
                    ++ [finalMovement Math_sin Math_cos center baseAngle D]).
Proof.
  intros center Hpos.
  destruct (timePerAsset_spec (length assets) Hpos) as (HD & _ & _).
  fold D in HD.
  unfold generateMultiAssetAnimation, multiAssetMovements, forEach.
  unfold introDuration, minSecondsPerAsset. fold D. fold timePerAsset.
  fold callback.
  destruct (forEachFrom_tour assets 0
              (introMovements Math_sin Math_cos props center baseAngle))
    as (tour & E & Htour).
  - simpl. lia.
  - unfold introMovements. repeat constructor; simpl; lra.
  - simpl keyframes. rewrite E.
    set (final := finalMovement Math_sin Math_cos center baseAngle D).
    assert (Hshape :
      exists first rest,
        introMovements Math_sin Math_cos props center baseAngle ++ tour
        = first :: rest
        /\ time first = 0
        /\ Forall (fun k => 0 <= time k <= D) rest).
    { unfold introMovements. eexists. eexists.
      split; [simpl; reflexivity |]. split; [reflexivity |].
      repeat (constructor; [simpl; lra |]). exact Htour. }
    destruct Hshape as (first & rest & -> & Hfirst & Hall).
    assert (Hsorted : sortByTime ((first :: rest) ++ [final])
                      = first :: sortByTime rest ++ [final]).
    { rewrite sortByTime_latest.
      - rewrite sortByTime_earliest; [reflexivity |].
        eapply Forall_impl; [| exact Hall]. simpl. rewrite Hfirst.
        intros; lra.
      - constructor; [rewrite Hfirst; unfold final; simpl; lra |].
        eapply Forall_impl; [| exact Hall]. simpl. intros; lra. }
    exists first, (sortByTime rest). split; [exact Hsorted |].
    split; [exact Hfirst |].
    rewrite <- Hsorted. apply sortByTime_ascending.
Qed.

End Tour.

(** *** Order and span of the generated keyframes *)

Lemma countAt_app :
  forall c l1 l2, countAt c (l1 ++ l2) = (countAt c l1 + countAt c l2)%nat.
Proof. intros. unfold countAt. now rewrite filter_app, length_app. Qed.

Lemma countAt_perm :
  forall c l1 l2, Permutation l1 l2 -> countAt c l1 = countAt c l2.
Proof.
  intros c l1 l2 Hp. unfold countAt.
  induction Hp as [| k l1 l2 Hp IH | k k' l | l1 l2 l3 Hp1 IH1 Hp2 IH2];
    simpl.
  - reflexivity.
  - destruct (Qeq_bool (time k) c); simpl; now rewrite IH.
  - destruct (Qeq_bool (time k) c), (Qeq_bool (time k') c); reflexivity.
  - congruence.
Qed.

Lemma countAt_strictlyAscending :
  forall c l, strictlyAscending l -> (countAt c l <= 1)%nat.
Proof.
  intros c l. unfold countAt. induction l as [| k l IH]; intro Hs; simpl.
  - lia.
  - apply StronglySorted_inv in Hs as [Hs Hall].
    destruct (Qeq_bool (time k) c) eqn:E; [| now apply IH].
    apply Qeq_bool_iff in E. simpl.
    assert (Hnone : filter (fun k' => Qeq_bool (time k') c) l = []).
    { clear IH Hs. induction l as [| k' l IH]; [reflexivity |].
      apply Forall_cons_iff in Hall as [Hk' Hall]. simpl.
      destruct (Qeq_bool (time k') c) eqn:E'; [| now apply IH].
      apply Qeq_bool_iff in E'. lra. }
    rewrite Hnone. simpl. lia.
Qed.

(** With two assets or more, two of the generated keyframes have the time
    6: the order is never strict. *)
Lemma multi_asset_keyframes_share_six :
  forall sn cs pi props random,
    (2 <= length (assetsPositions props))%nat ->
    ~ strictlyAscending
        (keyframes (generateRandomKeyframes sn cs pi props random)).
Proof.
  intros sn cs pi props random Hlen Hs.
  apply (countAt_strictlyAscending 6) in Hs.
  unfold generateRandomKeyframes in Hs.
  destruct (assetsPositions props) as [| a [| b l]] eqn:E;
    simpl in Hlen; try lia.
  unfold generateMultiAssetAnimation in Hs. simpl keyframes in Hs.
  rewrite <- (countAt_perm 6 _ _ (sortByTime_perm _)) in Hs.
  match type of Hs with
  | context [multiAssetMovements _ _ _ ?c _ ?ba] =>
      destruct (first_approach_at_six sn cs props c a (b :: l) ba)
        as (approach & rest & Em & Ht)
  end.
  rewrite Em, countAt_app in Hs.
  unfold countAt at 2 in Hs. simpl filter in Hs.
  apply Qeq_bool_iff in Ht. rewrite Ht in Hs.
  unfold introMovements, countAt in Hs. simpl in Hs. lia.
Qed.

(** With two assets the generated keyframes are at times 0, 2, 4, 6, 6,
    9.5, 13, 13, 16.5 and 20: the introduction ends where the first
    approach starts, and each transition has the time of the next approach. *)
Lemma two_assets_times :
  Forall2 Qeq
    (map time (keyframes (generateRandomKeyframes sin0 cos1 pi twoAssets 0.5)))
    [0; 2; 4; 6; 6; 9.5; 13; 13; 16.5; 20].
Proof. vm_compute. repeat constructor. Qed.

Lemma generated_keyframes_share_times :
  ~ strictlyAscending
      (keyframes (generateRandomKeyframes sin0 cos1 pi twoAssets 0.5)).
Proof.
  intro H. vm_compute in H.
  do 3 (apply StronglySorted_inv in H as [H _]).
  apply StronglySorted_inv in H as [_ H].
  apply Forall_inv in H. vm_compute in H. discriminate.
Qed.

(** C4, as the code has it.  For a non-empty asset list the generated
    keyframes are in ascending order of time, equal times allowed; the
    first one has time 0; and the last one has the time the generator
    returns as duration, for a single asset on condition that the
    [duration] prop is 20, the time of the last keyframe of the single-asset
    path. *)
Theorem generated_keyframes_ascending :
  forall sn cs pi props random,
    assetsPositions props <> [] ->
    let g := generateRandomKeyframes sn cs pi props random in
    ascending (keyframes g)
    /\ (exists first rest, keyframes g = first :: rest /\ time first = 0)
    /\ ((length (assetsPositions props) = 1%nat -> duration props == 20) ->
        forall d, time (last (keyframes g) d) == dynamicDuration g).
Proof.
  intros sn cs pi props random Hne g. subst g.
  unfold generateRandomKeyframes.
  destruct (assetsPositions props) as [| a [| b l]] eqn:E;
    [congruence | |].
  - split; [| split].
    + unfold generateSingleAssetAnimation. simpl.
      repeat (constructor; [| repeat constructor; simpl; lra]). constructor.
    + unfold generateSingleAssetAnimation. simpl.
      eexists. eexists. split; reflexivity.
    + intros Hd d. simpl. symmetry. apply Hd. reflexivity.
  - set (center := if (0 <? length (a :: b :: l))%nat
                   then divideScalar (fold_left add (a :: b :: l) zero)
                                     (JS.num (length (a :: b :: l)))
                   else zero).
    destruct (multiAsset_shape sn cs props (a :: b :: l)
                (random * pi * 2) center)
      as (first & middle & Hk & Hfirst & Hasc); [simpl; lia |].
    rewrite Hk. split; [exact Hasc |]. split.
    + exists first, (middle ++ [finalMovement sn cs center (random * pi * 2)
         (Qmax 20 (6 + JS.num (length (a :: b :: l)) * 4))]).
      split; [reflexivity | exact Hfirst].
    + intros _ d. rewrite app_comm_cons, last_last. reflexivity.
Qed.

Lemma generated_keyframes_ascending_witness :
  ascending (keyframes (generateRandomKeyframes sin0 cos1 pi oneAsset 0.5))
  /\ forall d,
       time (last (keyframes
                     (generateRandomKeyframes sin0 cos1 pi oneAsset 0.5)) d)
       == dynamicDuration (generateRandomKeyframes sin0 cos1 pi oneAsset 0.5).
Proof.
  destruct (generated_keyframes_ascending sin0 cos1 pi oneAsset 0.5)
    as (Hasc & _ & Hlast); [discriminate |].
  split; [exact Hasc |]. apply Hlast. intros _. reflexivity.
Defined.

End RigFacts.

(** ** The capture hook *)

Module CaptureFacts.

Import Capture JSFacts Samples.

(** *** The heap *)

Lemma store_length : forall r o h, length (store r o h) = length h.
Proof.
  intros r o h. revert r.
  induction h as [| o' h IH]; intros [| r]; simpl; auto.
Qed.

Lemma deref_store :
  forall r o h, (r < length h)%nat -> deref (store r o h) r = o.
Proof.
  intros r o h. revert r. unfold deref.
  induction h as [| o' h IH]; intros [| r] Hlt; simpl in *; try lia; auto.
  apply IH. lia.
Qed.

Lemma store_store :
  forall r o1 o2 h, store r o2 (store r o1 h) = store r o2 h.
Proof.
  intros r o1 o2 h. revert r.
  induction h as [| o' h IH]; intros [| r]; simpl; auto.
  now rewrite IH.
Qed.

Lemma store_alloc :
  forall h o o', store (length h) o (h ++ [o']) = h ++ [o].
Proof.
  induction h as [| o0 h IH]; intros o o'; simpl; [reflexivity |].
  now rewrite IH.
Qed.

(** *** How many calls submit a frame *)

Lemma below_total_frames :
  forall (total : Q) (k : nat),
    (k < Z.to_nat (Qceiling total))%nat ->
    JS.ge (JS.num k) total = false.
Proof.
  intros total k Hk. apply ge_false.
  pose proof (Qceiling_lt total) as Hc.
  assert (Hz : (Z.of_nat k <= Qceiling total - 1)%Z) by lia.
  rewrite Zle_Qle in Hz. unfold JS.num. lra.
Qed.

Lemma reached_total_frames :
  forall (total : Q) (k : nat),
    (Z.to_nat (Qceiling total) <= k)%nat ->
    JS.ge (JS.num k) total = true.
Proof.
  intros total k Hk. apply ge_spec.
  pose proof (Qle_ceiling total) as Hc.
  assert (Hz : (Qceiling total <= Z.of_nat k)%Z) by lia.
  rewrite Zle_Qle in Hz. unfold JS.num. lra.
Qed.

Lemma expectedFrames_S :
  forall n,
    expectedFrames (S n)
    = expectedFrames n ++ [mkFrame (JS.num n / 30) (1 / 30)].
Proof.
  intro n. unfold expectedFrames. rewrite seq_S, map_app. reflexivity.
Qed.

Lemma expectedFrames_length : forall n, length (expectedFrames n) = n.
Proof. intro n. unfold expectedFrames. now rewrite length_map, length_seq. Qed.

Lemma expectedFrames_nth :
  forall n i d,
    (i < n)%nat ->
    nth i (expectedFrames n) d = mkFrame (JS.num i / 30) (1 / 30).
Proof.
  intros n i d Hi. unfold expectedFrames.
  rewrite (nth_indep _ d (mkFrame (JS.num 0 / 30) (1 / 30)))
    by (now rewrite length_map, length_seq).
  rewrite (map_nth (fun i => mkFrame (JS.num i / 30) (1 / 30))).
  now rewrite seq_nth.
Qed.

(** *** The capture loop *)

Section Loop.

Variable encoder : Encoder.
Variable duration : Q.

Hypothesis add_never_throws : forall fs f, addThrows encoder fs f = None.

Lemma startRecording_inFlight :
  forall h canvas,
    isRecordingRef h = false ->
    startThrows encoder = None ->
    exists h1 s,
      startRecording encoder h canvas duration = (h1, inr s)
      /\ inFlight duration h1 s /\ frameCount s = 0%nat.
Proof.
  intros h canvas Hidle Hstart. unfold startRecording.
  rewrite Hidle, Hstart. eexists. eexists.
  split; [reflexivity |]. split; [| reflexivity].
  unfold inFlight, submitted. simpl. rewrite store_alloc.
  unfold deref. rewrite nth_middle, length_app. simpl.
  repeat split; lia.
Qed.

Lemma captureFrame_inFlight :
  forall h s,
    inFlight duration h s ->
    (frameCount s < Z.to_nat (Qceiling (JS.times duration 30)))%nat ->
    exists h' s',
      captureFrame encoder h s = (h', Scheduled s')
      /\ inFlight duration h' s'
      /\ frameCount s' = S (frameCount s)
      /\ videoSource s' = videoSource s.
Proof.
  intros h s (Hrec & Hout & Hsrc & Hlt & Hfps & Htot & Hst & Hsub) Hk.
  unfold captureFrame. rewrite Hrec, Htot.
  rewrite (below_total_frames _ _ Hk). simpl.
  rewrite add_never_throws. eexists. eexists.
  split; [reflexivity |].
  unfold inFlight, submitted. simpl.
  rewrite store_length, deref_store by exact Hlt. simpl.
  unfold submitted in Hsub. rewrite Hsub, expectedFrames_S.
  unfold nextFrame. rewrite Hfps.
  repeat split; auto.
Qed.

Lemma runCapture_inFlight :
  forall ticks h s,
    inFlight duration h s ->
    (frameCount s + ticks <= Z.to_nat (Qceiling (JS.times duration 30)))%nat ->
    exists h' s',
      runCapture encoder ticks h s = (h', Scheduled s')
      /\ inFlight duration h' s'
      /\ frameCount s' = (frameCount s + ticks)%nat
      /\ videoSource s' = videoSource s.
Proof.
  induction ticks as [| ticks IH]; intros h s Hin Hk.
  - exists h, s. simpl.
    split; [reflexivity | split; [exact Hin | split; [lia | reflexivity]]].
  - destruct (captureFrame_inFlight h s Hin) as (h1 & s1 & E & Hin1 & Hc & Hv);
      [lia |].
    destruct (IH h1 s1 Hin1) as (h2 & s2 & E2 & Hin2 & Hc2 & Hv2); [lia |].
    exists h2, s2. simpl. rewrite E, E2.
    split; [reflexivity | split; [exact Hin2 | split; [lia | congruence]]].
Qed.

(** Once the frame count has reached the total, the next call finishes the
    recording: the promise is settled, the hook is idle again, and the
    source keeps the frames it was given. *)
Lemma captureFrame_finishes :
  forall h s,
    inFlight duration h s ->
    (Z.to_nat (Qceiling (JS.times duration 30)) <= frameCount s)%nat ->
    exists h' t,
      captureFrame encoder h s = (h', t)
      /\ settled t
      /\ isRecordingRef h' = false
      /\ submitted h' s = expectedFrames (frameCount s).
Proof.
  intros h s (Hrec & Hout & Hsrc & Hlt & Hfps & Htot & Hst & Hsub) Hk.
  unfold captureFrame. rewrite Hrec, Htot.
  rewrite (reached_total_frames _ _ Hk). simpl.
  unfold finishRecording. rewrite Hout, Hrec, Hsrc. simpl.
  unfold submitted in Hsub.
  destruct (finalizeThrows encoder _) as [e |].
  - eexists. eexists. split; [reflexivity |].
    unfold submitted. simpl. auto.
  - destruct (mux encoder _) as [video |];
      (eexists; eexists; split; [reflexivity |]);
      unfold submitted; simpl; rewrite deref_store by exact Hlt; simpl; auto.
Qed.

End Loop.

Lemma runCapture_more :
  forall encoder n m h s h' s',
    runCapture encoder n h s = (h', Scheduled s') ->
    runCapture encoder (n + m) h s = runCapture encoder m h' s'.
Proof.
  intros encoder n. induction n as [| n IH]; intros m h s h' s' E; simpl in *.
  - congruence.
  - destruct (captureFrame encoder h s) as [h1 [s1 | video | e]];
      try discriminate.
    now apply IH.
Qed.

(** *** Rounding *)

Lemma round_whole : forall z, JS.round (inject_Z z) = z.
Proof.
  intro z. unfold JS.round.
  pose proof (Qfloor_le (inject_Z z + 0.5)) as Hlo.
  pose proof (Qlt_floor (inject_Z z + 0.5)) as Hhi.
  set (f := Qfloor (inject_Z z + 0.5)) in *.
  rewrite inject_Z_plus in Hhi. change (inject_Z 1) with 1 in Hhi.
  destruct (Z_lt_le_dec z f) as [Hlt | Hle].
  - assert (Hz : (z + 1 <= f)%Z) by lia.
    rewrite Zle_Qle, inject_Z_plus in Hz. change (inject_Z 1) with 1 in Hz.
    lra.
  - destruct (Z_lt_le_dec f z) as [Hlt | Hge]; [| lia].
    assert (Hz : (f + 1 <= z)%Z) by lia.
    rewrite Zle_Qle, inject_Z_plus in Hz. change (inject_Z 1) with 1 in Hz.
    lra.
Qed.

Lemma whole_seconds_rounded :
  forall (d : Q) (z : Z),
    d == inject_Z z -> Qceiling (d * 30) = JS.round (d * 30).
Proof.
  intros d z Hd.
  assert (E : d * 30 == inject_Z (z * 30))
    by (rewrite inject_Z_mult, Hd; reflexivity).
  rewrite (Qceiling_comp _ _ E), Qceiling_Z.
  unfold JS.round.
  assert (E' : d * 30 + 0.5 == inject_Z (z * 30) + 0.5) by (rewrite E; reflexivity).
  rewrite (Qfloor_comp _ _ E'). symmetry. apply round_whole.
Qed.

Lemma frame_spacing :
  forall n i d,
    (S i < n)%nat ->
    timestampInSeconds (nth (S i) (expectedFrames n) d)
    - timestampInSeconds (nth i (expectedFrames n) d) == 1 / 30
    /\ durationInSeconds (nth i (expectedFrames n) d) = 1 / 30.
Proof.
  intros n i d Hi.
  rewrite !expectedFrames_nth by lia. simpl.
  split; [| reflexivity]. rewrite num_S. field.
Qed.

(** *** Frames of a capture *)

(** A capture of a hundredth of a second submits one frame, whereas
    [round(0.01 * 30)] is 0. *)
Lemma frame_count_not_rounded :
  exists h1 s,
    startRecording reliable init canvas 0.01 = (h1, inr s)
    /\ settled (snd (runCapture reliable 5 h1 s))
    /\ length (submitted (fst (runCapture reliable 5 h1 s)) s)
       <> Z.to_nat (JS.round (0.01 * 30)).
Proof.
  eexists. eexists. split; [reflexivity |].
  split; [exact I |]. vm_compute. discriminate.
Qed.

(** C2, as the code has it.  A capture of [duration] seconds started on an
    idle hook, with an encoder that does not throw on start nor on any
    frame, and left to run, submits exactly [ceil(totalFrames)] frames,
    [totalFrames] being the product [duration * 30] as the machine rounds
    it.  For a whole number of seconds the product is exact and the count
    is [duration * 30], which is [round(duration * 30)]; for 8.3 seconds
    the product is a little above 249 and the count is 250.  Frame [i] has
    timestamp [i / 30] and duration [1 / 30], so that consecutive
    timestamps are [1 / 30] apart.  The capture is still going on after
    every call up to that count and settled after the next one. *)
Theorem capture_submits_every_frame :
  forall encoder h canvas duration,
    isRecordingRef h = false ->
    startThrows encoder = None ->
    (forall fs f, addThrows encoder fs f = None) ->
    let total := Z.to_nat (Qceiling (JS.times duration 30)) in
    exists h1 s,
      startRecording encoder h canvas duration = (h1, inr s)
      /\ (forall ticks, (ticks <= total)%nat ->
            exists h' s',
              runCapture encoder ticks h1 s = (h', Scheduled s')
              /\ submitted h' s = expectedFrames ticks)
      /\ (forall ticks, (total < ticks)%nat ->
            exists h' t,
              runCapture encoder ticks h1 s = (h', t)
              /\ settled t
              /\ submitted h' s = expectedFrames total)
      /\ (forall i d, (S i < total)%nat ->
            timestampInSeconds (nth (S i) (expectedFrames total) d)
            - timestampInSeconds (nth i (expectedFrames total) d) == 1 / 30
            /\ durationInSeconds (nth i (expectedFrames total) d) = 1 / 30)
      /\ (forall z, duration == inject_Z z ->
            (Z.abs (z * 30) < 2 ^ 53)%Z ->
            total = Z.to_nat (z * 30)
            /\ total = Z.to_nat (JS.round (duration * 30))).
Proof.
  intros encoder h canvas duration Hidle Hstart Hadd total.
  destruct (startRecording_inFlight encoder duration h canvas Hidle Hstart)
    as (h1 & s & E & Hin & Hzero).
  exists h1, s. split; [exact E |].
  assert (Hrun : forall ticks, (ticks <= total)%nat ->
            exists h' s',
              runCapture encoder ticks h1 s = (h', Scheduled s')
              /\ inFlight duration h' s'
              /\ frameCount s' = ticks
              /\ videoSource s' = videoSource s).
  { intros ticks Ht.
    destruct (runCapture_inFlight encoder duration Hadd ticks h1 s Hin)
      as (h' & s' & E' & Hin' & Hc & Hv); [fold total; lia |].
    exists h', s'. rewrite Hzero in Hc. auto. }
  split; [| split; [| split]].
  - intros ticks Ht.
    destruct (Hrun ticks Ht) as (h' & s' & E' & Hin' & Hc & Hv).
    exists h', s'. split; [exact E' |].
    destruct Hin' as (_ & _ & _ & _ & _ & _ & _ & Hsub).
    unfold submitted in *. rewrite <- Hv, Hsub, Hc. reflexivity.
  - intros ticks Ht.
    destruct (Hrun total (le_n _)) as (h' & s' & E' & Hin' & Hc & Hv).
    destruct (captureFrame_finishes encoder duration h' s' Hin')
      as (h2 & t & E2 & Hset & _ & Hsub); [fold total; lia |].
    exists h2, t.
    replace ticks with (total + S (ticks - S total))%nat by lia.
    rewrite (runCapture_more encoder total _ h1 s h' s' E').
    simpl. rewrite E2.
    unfold submitted in *. rewrite <- Hv, Hsub, Hc.
    destruct t; [contradiction | auto | auto].
  - intros i d Hi. now apply frame_spacing.
  - intros z Hz Hsmall.
    assert (Ez : duration * 30 == inject_Z (z * 30))
      by (rewrite inject_Z_mult, Hz; reflexivity).
    assert (Et : total = Z.to_nat (z * 30)).
    { unfold total. rewrite (times_whole duration 30 (z * 30) Ez Hsmall).
      now rewrite Qceiling_Z. }
    split; [exact Et |].
    rewrite Et, <- (whole_seconds_rounded duration z Hz).
    now rewrite (Qceiling_comp _ _ Ez), Qceiling_Z.
Qed.

(** A capture of 8.3 seconds: 8.3 times 30 is a little more than 249 in
    doubles, and the capture submits 250 frames. *)
Lemma capture_submits_every_frame_witness :
  exists h1 s,
    startRecording reliable init canvas (JS.double 8.3) = (h1, inr s)
    /\ exists h' t,
         runCapture reliable 251 h1 s = (h', t)
         /\ settled t
         /\ submitted h' s = expectedFrames 250.
Proof.
  destruct (capture_submits_every_frame reliable init canvas (JS.double 8.3))
    as (h1 & s & E & _ & Hdone & _); [reflexivity .. |].
  exists h1, s. split; [exact E |].
  apply (Hdone 251%nat). vm_compute. lia.
Defined.

(** *** Starting while a capture is in progress *)

(** C7.  While the hook records, [startRecording] throws at once and
    changes nothing: the hook it leaves is the hook it found, recording
    flag, output and frames included, and the capture in progress, whatever
    its frame counter, goes on exactly as it would have. *)
Theorem second_start_rejected :
  forall encoder h canvas duration,
    isRecordingRef h = true ->
    startRecording encoder h canvas duration
      = (h, inl (JsError "Already recording"))
    /\ forall ticks s,
         runCapture encoder ticks
           (fst (startRecording encoder h canvas duration)) s
         = runCapture encoder ticks h s.
Proof.
  intros encoder h canvas duration Hrec.
  unfold startRecording. rewrite Hrec. split; reflexivity.
Qed.

Lemma second_start_rejected_witness :
  exists h0 s0 h1 s,
    startRecording reliable init canvas 20 = (h0, inr s0)
    /\ runCapture reliable 2 h0 s0 = (h1, Scheduled s)
    /\ frameCount s = 2%nat
    /\ startRecording reliable h1 canvas 5
       = (h1, inl (JsError "Already recording")).
Proof.
  eexists. eexists. eexists. eexists.
  split; [reflexivity |]. split; [reflexivity |]. split; [reflexivity |].
  apply second_start_rejected. reflexivity.
Defined.

(** *** An error while a frame is submitted *)

Lemma captureFrame_error :
  forall encoder h s e,
    isRecordingRef h = true ->
    JS.ge (JS.num (frameCount s)) (totalFrames s) = false ->
    addThrows encoder (submitted h s) (nextFrame s) = Some e ->
    captureFrame encoder h s = (h, Rejected e).
Proof.
  intros encoder h s e Hrec Hk Hadd. unfold captureFrame.
  rewrite Hrec, Hk. simpl. unfold submitted in Hadd. now rewrite Hadd.
Qed.

(** C8, on an encoder whose source throws on the third frame.  The capture
    is rejected with the error of the source and returns no video, but the
    hook is left as the failing call found it: still recording, its output
    reference set, the output started and holding the two frames submitted
    before, so that the next [startRecording] throws. *)
Theorem frame_error_leaves_hook_recording :
  exists h1 s h2,
    startRecording faulty init canvas 20 = (h1, inr s)
    /\ runCapture faulty 3 h1 s = (h2, Rejected (EncoderError 7))
    /\ isRecordingRef h2 = true
    /\ outputRef h2 = Some (output s)
    /\ state (deref (heap h2) (output s)) = Started
    /\ submitted h2 s = expectedFrames 2
    /\ startRecording faulty h2 canvas 20
       = (h2, inl (JsError "Already recording")).
Proof.
  eexists. eexists. eexists.
  split; [reflexivity |]. split; [reflexivity |].
  repeat split.
Qed.

(** What the same capture leaves when it is stopped instead: an idle hook
    and a cancelled output. *)
Lemma stopRecording_cleans_up :
  exists h1 s h2,
    startRecording faulty init canvas 20 = (h1, inr s)
    /\ stopRecording faulty (fst (runCapture faulty 2 h1 s)) = (h2, None)
    /\ isRecordingRef h2 = false
    /\ outputRef h2 = None
    /\ state (deref (heap h2) (output s)) = Canceled.
Proof.
  eexists. eexists. eexists.
  split; [reflexivity |]. split; [reflexivity |].
  repeat split.
Qed.

End CaptureFacts.

(** ** More on the camera rig *)

Module RigMore.

Import THREE Rig Geometry JSFacts Samples.

(** *** The keyframe interval *)

(** Whatever the order of the keyframes, a time strictly between the
    first and the last one is enclosed by two adjacent keyframes, and the
    loop finds such a pair. *)
Lemma findInterval_found :
  forall c rest first,
    time first < c ->
    c < time (last rest first) ->
    exists pre a b post,
      first :: rest = pre ++ a :: b :: post
      /\ findInterval c (first :: rest) = Some (a, b)
      /\ time a <= c /\ c <= time b.
Proof.
  intros c. induction rest as [| k rest IH]; intros first Hlo Hhi.
  - simpl in Hhi. lra.
  - destruct (JS.le c (time k)) eqn:E.
    + exists [], first, k, rest. apply le_spec in E.
      assert (E1 : JS.ge c (time first) = true) by (apply ge_spec; lra).
      assert (E2 : JS.le c (time k) = true) by (apply le_spec; exact E).
      simpl. rewrite E1, E2. repeat split; auto; lra.
    + assert (Hk : time k < c) by (apply le_false; exact E).
      destruct (IH k Hk) as (pre & a & b & post & Hsplit & Hfind & Ha & Hb).
      { now rewrite <- (RigFacts.last_cons_default k rest first). }
      exists (first :: pre), a, b, post.
      split; [simpl; now rewrite Hsplit |].
      split; [| split; assumption].
      simpl. rewrite E, andb_false_r. exact Hfind.
Qed.

Lemma interpolate_inside :
  forall st first rest currentTime a b,
    keyframesRef st = first :: rest ->
    time first < clampTime st currentTime ->
    clampTime st currentTime < time (last rest first) ->
    findInterval (clampTime st currentTime) (first :: rest) = Some (a, b) ->
    interpolateKeyframes st currentTime
    = let easedT :=
        ease (isRecordingRef st)
             (blendFactor (clampTime st currentTime) a b) in
      mkPose (lerpVectors (position a) (position b) easedT)
             (lerpVectors (lookAt a) (lookAt b) easedT)
             (lerp (JS.or_default (fov a) 50) (JS.or_default (fov b) 50)
                   easedT).
Proof.
  intros st first rest currentTime a b Hk Hlo Hhi Hfind.
  unfold interpolateKeyframes. rewrite Hk, RigFacts.last_cons_default.
  apply le_false in Hlo. apply ge_false in Hhi.
  now rewrite Hlo, Hhi, Hfind.
Qed.

(** The fallback pair of [interpolateKeyframes], the first and the last
    keyframe, is never used: strictly between the times of the first and
    the last keyframe the pose is always blended from two adjacent
    keyframes whose times enclose the query, in whatever order the
    keyframes are. *)
Theorem interval_always_found :
  forall st first rest currentTime,
    keyframesRef st = first :: rest ->
    time first < clampTime st currentTime ->
    clampTime st currentTime < time (last rest first) ->
    exists pre a b post,
      keyframesRef st = pre ++ a :: b :: post
      /\ time a <= clampTime st currentTime
      /\ clampTime st currentTime <= time b
      /\ interpolateKeyframes st currentTime
         = let easedT :=
             ease (isRecordingRef st)
                  (blendFactor (clampTime st currentTime) a b) in
           mkPose (lerpVectors (position a) (position b) easedT)
                  (lerpVectors (lookAt a) (lookAt b) easedT)
                  (lerp (JS.or_default (fov a) 50)
                        (JS.or_default (fov b) 50) easedT).
Proof.
  intros st first rest currentTime Hk Hlo Hhi.
  destruct (findInterval_found _ rest first Hlo Hhi)
    as (pre & a & b & post & Hsplit & Hfind & Ha & Hb).
  exists pre, a, b, post. rewrite Hk.
  repeat split; auto.
  now apply (interpolate_inside st first rest).
Qed.

Lemma interval_always_found_witness :
  exists pre a b post,
    keyframesRef recordingAB = pre ++ a :: b :: post
    /\ time a <= clampTime recordingAB 1
    /\ clampTime recordingAB 1 <= time b.
Proof.
  destruct (interval_always_found recordingAB kfA [kfB] 1)
    as (pre & a & b & post & H1 & H2 & H3 & _);
    [reflexivity | vm_compute; reflexivity | vm_compute; reflexivity |].
  exists pre, a, b, post. auto.
Defined.

(** *** The easing curves *)

Lemma ease_half : forall recording, ease recording (1 # 2) == 1 # 2.
Proof. intros [|]; reflexivity. Qed.

Lemma ease_proper :
  forall recording t t', t == t' -> ease recording t == ease recording t'.
Proof. intros [|] t t' E; unfold ease; rewrite E; reflexivity. Qed.

(** *** Half way between two keyframes *)

Lemma interpolate_consecutive :
  forall st pre a b post currentTime,
    keyframesRef st = pre ++ a :: b :: post ->
    ascending (keyframesRef st) ->
    time a < clampTime st currentTime ->
    clampTime st currentTime < time b ->
    interpolateKeyframes st currentTime
    = let easedT :=
        ease (isRecordingRef st)
             (blendFactor (clampTime st currentTime) a b) in
      mkPose (lerpVectors (position a) (position b) easedT)
             (lerpVectors (lookAt a) (lookAt b) easedT)
             (lerp (JS.or_default (fov a) 50) (JS.or_default (fov b) 50)
                   easedT).
Proof.
  intros st pre a b post currentTime Hk Hs Ha Hb.
  pose proof (RigFacts.findInterval_ascending
                (clampTime st currentTime) pre a b post) as Hfind.
  rewrite <- Hk in Hfind. specialize (Hfind Hs Ha Hb).
  assert (Hina : In a (keyframesRef st))
    by (rewrite Hk; apply in_or_app; right; now left).
  assert (Hinb : In b (keyframesRef st))
    by (rewrite Hk; apply in_or_app; right; right; now left).
  destruct (keyframesRef st) as [| first rest] eqn:E; [contradiction |].
  apply (interpolate_inside st first rest); auto.
  - pose proof (RigFacts.ascending_head_le first rest a Hs Hina). lra.
  - pose proof (RigFacts.ascending_le_last (first :: rest) b first Hs Hinb)
      as Hl.
    rewrite RigFacts.last_cons_default in Hl. lra.
Qed.

(** Exactly half way in time between two consecutive keyframes of an
    ascending list, the pose is the midpoint of their positions, of their
    look-at points and of their fields of view, in record mode and in
    preview: both easing curves map one half to one half. *)
Theorem midpoint_pose :
  forall st pre a b post currentTime,
    keyframesRef st = pre ++ a :: b :: post ->
    ascending (keyframesRef st) ->
    time a < time b ->
    clampTime st currentTime == (time a + time b) / 2 ->
    poseEq (interpolateKeyframes st currentTime)
           (mkPose (midpoint (position a) (position b))
                   (midpoint (lookAt a) (lookAt b))
                   ((JS.or_default (fov a) 50 + JS.or_default (fov b) 50) / 2)).
Proof.
  intros st pre a b post currentTime Hk Hs Hab Hc.
  assert (Hc2 : 2 * clampTime st currentTime == time a + time b)
    by (rewrite Hc; field).
  rewrite (interpolate_consecutive st pre a b post currentTime Hk Hs)
    by lra.
  assert (Ht : blendFactor (clampTime st currentTime) a b == 1 # 2).
  { unfold blendFactor.
    assert (E : JS.gt (time b - time a) 0 = true) by (apply gt_spec; lra).
    rewrite E, Hc. field. lra. }
  assert (He : ease (isRecordingRef st)
                 (blendFactor (clampTime st currentTime) a b) == 1 # 2)
    by (rewrite (ease_proper _ _ _ Ht); apply ease_half).
  unfold poseEq, veq, lerpVectors, midpoint, lerp. simpl.
  rewrite !He. repeat split; field.
Qed.

Lemma midpoint_pose_witness :
  poseEq (interpolateKeyframes recordingAB 2)
         (mkPose (midpoint (position kfA) (position kfB))
                 (midpoint (lookAt kfA) (lookAt kfB))
                 ((50 + 90) / 2)).
Proof.
  apply (midpoint_pose recordingAB [] kfA kfB [] 2).
  - reflexivity.
  - repeat constructor. simpl. lra.
  - simpl. lra.
  - vm_compute. reflexivity.
Defined.

(** *** The preview loop *)

Lemma rem_range :
  forall a b, 0 <= a -> 0 < b -> 0 <= JS.rem a b /\ JS.rem a b < b.
Proof.
  intros a b Ha Hb. unfold JS.rem, JS.trunc.
  assert (Hq : 0 <= a / b) by (apply Qle_shift_div_l; lra).
  assert (E : Qle_bool 0 (a / b) = true) by (now apply Qle_bool_iff).
  rewrite E.
  pose proof (Qfloor_le (a / b)) as Hlo.
  pose proof (Qlt_floor (a / b)) as Hhi.
  rewrite inject_Z_plus in Hhi. change (inject_Z 1) with 1 in Hhi.
  set (f := inject_Z (Qfloor (a / b))) in *.
  assert (Eq : a / b * b == a) by (field; lra).
  assert (H1 : 0 <= (a / b - f) * b) by (apply Qmult_le_0_compat; lra).
  assert (H2 : 0 < (f + 1 - a / b) * b)
    by (apply Qmult_lt_0_compat; lra).
  assert (E1 : (a / b - f) * b == a / b * b - b * f) by ring.
  assert (E2 : (f + 1 - a / b) * b == b * f + b - a / b * b) by ring.
  lra.
Qed.

(** In preview, whatever the render clock reads (being at least 0) and for
    a positive duration, the interpolator is queried within the path: at a
    time from 0 up to, but not including, the stored duration; the refs are
    left as they are. *)
Theorem preview_time_in_range :
  forall st clock,
    isRecordingRef st = false ->
    0 < dynamicDurationRef st ->
    0 <= atQuery clock ->
    fst (frameTime st clock) = st
    /\ 0 <= snd (frameTime st clock)
    /\ snd (frameTime st clock) < dynamicDurationRef st.
Proof.
  intros st clock Hrec HD He. unfold frameTime. rewrite Hrec. simpl.
  split; [reflexivity |]. apply rem_range; lra.
Qed.

Lemma preview_time_in_range_witness :
  0 <= snd (frameTime (stopRecordingAnimation recordingAB) (still 123.4))
  /\ snd (frameTime (stopRecordingAnimation recordingAB) (still 123.4)) < 4.
Proof.
  apply (preview_time_in_range (stopRecordingAnimation recordingAB)
           (still 123.4));
    vm_compute; reflexivity || discriminate.
Defined.

(** *** The camera while recording *)

(** The first render of a recording latches the first reading of the
    clock as the start time, whatever it is, and queries the path at the
    time that went by until the second reading.  When that time is not
    beyond the time of the first keyframe, itself not negative (for a path
    that starts at 0: when the clock has not advanced between the two
    readings), the camera is put exactly on the first keyframe, wherever
    it was. *)
Theorem first_render_on_first_keyframe :
  forall props st camera clock first rest,
    enabled props = true ->
    isRecordingRef st = true ->
    animationStartTimeRef st = None ->
    keyframesRef st = first :: rest ->
    0 <= time first ->
    atQuery clock - atLatch clock <= time first ->
    useFrame props st camera clock
    = (mkRig (Some (atLatch clock)) true (keyframesRef st)
             (dynamicDurationRef st),
       mkCamera (position first) (lookAt first)
                (option_map (fun _ => JS.or_default (fov first) 50)
                            (cam_fov camera))).
Proof.
  intros props st camera clock first rest Hen Hrec Hstart Hk H0 Hgap.
  unfold useFrame, frameTime. rewrite Hen, Hrec, Hstart. simpl.
  rewrite (RigFacts.interpolate_at_first _ first rest).
  - simpl. destruct (cam_fov camera); reflexivity.
  - exact Hk.
  - apply RigFacts.clampTime_le; [exact H0 | exact Hgap].
Qed.

Lemma first_render_on_first_keyframe_witness :
  useFrame oneAsset recordingAB perspective (still 37.5)
  = (mkRig (Some 37.5) true [kfA; kfB] 4,
     mkCamera (position kfA) (lookAt kfA) (Some 50)).
Proof.
  apply (first_render_on_first_keyframe oneAsset recordingAB perspective
           (still 37.5) kfA [kfB]); try reflexivity.
  - simpl. lra.
  - simpl. lra.
Defined.

(** Once the recording has run for as long as the path lasts, every further
    render leaves the camera on the last keyframe: its position, its
    look-at point and its field of view, unblended. *)
Theorem recording_holds_last_keyframe :
  forall props st camera clock start first rest,
    enabled props = true ->
    isRecordingRef st = true ->
    animationStartTimeRef st = Some start ->
    keyframesRef st = first :: rest ->
    time first < time (last rest first) ->
    time (last rest first) <= dynamicDurationRef st ->
    time (last rest first) <= atQuery clock - start ->
    useFrame props st camera clock
    = (mkRig (Some start) true (keyframesRef st) (dynamicDurationRef st),
       mkCamera (position (last rest first)) (lookAt (last rest first))
                (option_map
                   (fun _ => JS.or_default (fov (last rest first)) 50)
                   (cam_fov camera))).
Proof.
  intros props st camera clock start first rest
         Hen Hrec Hstart Hk Hspan HD Hq.
  unfold useFrame, frameTime. rewrite Hen, Hrec, Hstart. simpl.
  assert (Hc : time (last rest first)
               <= clampTime (mkRig (Some start) true (keyframesRef st)
                                   (dynamicDurationRef st))
                            (atQuery clock - start))
    by (apply RigFacts.clampTime_ge; [exact Hq | exact HD]).
  rewrite (RigFacts.interpolate_at_last _ first rest).
  - simpl. destruct (cam_fov camera); reflexivity.
  - exact Hk.
  - lra.
  - exact Hc.
Qed.

Lemma recording_holds_last_keyframe_witness :
  useFrame oneAsset (mkRig (Some 10) true [kfA; kfB] 4) perspective
    (still 15)
  = (mkRig (Some 10) true [kfA; kfB] 4,
     mkCamera (position kfB) (lookAt kfB) (Some 90)).
Proof.
  apply (recording_holds_last_keyframe oneAsset
           (mkRig (Some 10) true [kfA; kfB] 4) perspective (still 15) 10 kfA [kfB]);
    try reflexivity; simpl; lra.
Defined.

(** *** The single-asset path *)

(** The path for a single asset has eight keyframes, at 0, 3, 6, 9, 12, 15,
    18 and 20 seconds, hence in strictly ascending order; all of them look
    at the asset; the field of view narrows from 50 to 30 degrees at 12
    seconds and widens again to 55; the first keyframe is at the start
    position when one is given; and the duration returned is the
    [duration] prop. *)
Theorem single_asset_path :
  forall sn cs pi props asset random,
    assetsPositions props = [asset] ->
    let g := generateRandomKeyframes sn cs pi props random in
    map time (keyframes g) = [0; 3; 6; 9; 12; 15; 18; 20]
    /\ strictlyAscending (keyframes g)
    /\ Forall (fun k => lookAt k = asset) (keyframes g)
    /\ map fov (keyframes g)
       = map Some [50; 45; 40; 35; 30; 40; 50; 55]
    /\ (forall sp, startPosition props = Some sp ->
          option_map position (hd_error (keyframes g)) = Some sp)
    /\ dynamicDuration g = duration props.
Proof.
  intros sn cs pi props asset random Hone g. subst g.
  unfold generateRandomKeyframes. rewrite Hone.
  unfold generateSingleAssetAnimation. simpl.
  split; [reflexivity |]. split.
  { repeat (constructor; [| repeat constructor; simpl; lra]). constructor. }
  split; [repeat constructor |]. split; [reflexivity |].
  split; [| reflexivity].
  intros sp Hsp. unfold ifStart. now rewrite Hsp.
Qed.

Lemma single_asset_path_witness :
  map time (keyframes (generateRandomKeyframes sin0 cos1 pi oneAsset 0.5))
  = [0; 3; 6; 9; 12; 15; 18; 20].
Proof.
  apply (single_asset_path sin0 cos1 pi oneAsset (mkVector3 1 0 2) 0.5).
  reflexivity.
Defined.

(** *** The multi-asset path *)

Lemma forEachFrom_length :
  forall sn cs assets baseAngle tpa arr index movements,
    (index + length arr = length assets)%nat ->
    (length (forEachFrom (tourCallback sn cs assets baseAngle tpa)
                         index arr movements)
     + match arr with [] => 0 | _ => 1 end
     = length movements + 3 * length arr)%nat.
Proof.
  intros sn cs assets baseAngle tpa.
  induction arr as [| asset arr IH]; intros index movements Hlen.
  - simpl. lia.
  - simpl forEachFrom. simpl in Hlen.
    specialize (IH (S index)
                  (tourCallback sn cs assets baseAngle tpa movements
                                asset index)).
    assert (Hpush :
      length (tourCallback sn cs assets baseAngle tpa movements asset index)
      = (length movements
         + if (S index <? length assets)%nat then 3 else 2)%nat).
    { unfold tourCallback.
      destruct (S index <? length assets)%nat;
        repeat rewrite length_app; simpl; lia. }
    destruct arr as [| asset' arr].
    + simpl in *.
      assert (E : (S index <? length assets)%nat = false)
        by (apply Nat.ltb_ge; lia).
      rewrite E in Hpush. lia.
    + assert (E : (S index <? length assets)%nat = true)
        by (apply Nat.ltb_lt; simpl in Hlen; lia).
      rewrite E in Hpush.
      specialize (IH ltac:(simpl in *; lia)).
      simpl length in *. lia.
Qed.

(** For two assets or more the path has [3 n + 4] keyframes: four for the
    introduction, an approach and a close-up for each asset, a transition
    after each asset but the last, and the final pull-back. *)
Theorem multi_asset_keyframe_count :
  forall sn cs pi props random,
    (2 <= length (assetsPositions props))%nat ->
    length (keyframes (generateRandomKeyframes sn cs pi props random))
    = (3 * length (assetsPositions props) + 4)%nat.
Proof.
  intros sn cs pi props random Hlen.
  unfold generateRandomKeyframes.
  destruct (assetsPositions props) as [| a [| b l]] eqn:E;
    simpl in Hlen; try lia.
  unfold generateMultiAssetAnimation. simpl keyframes.
  rewrite <- (Permutation_length (RigFacts.sortByTime_perm _)).
  unfold multiAssetMovements, forEach. rewrite length_app.
  match goal with
  | |- context [forEachFrom (tourCallback ?s ?c ?as' ?ba ?tpa) 0 _ ?m] =>
      pose proof (forEachFrom_length s c as' ba tpa (a :: b :: l) 0 m
                    eq_refl) as Hcount
  end.
  unfold introMovements in *. simpl length in *. lia.
Qed.

Lemma multi_asset_keyframe_count_witness :
  length (keyframes (generateRandomKeyframes sin0 cos1 pi twoAssets 0.5))
  = 10%nat.
Proof.
  apply (multi_asset_keyframe_count sin0 cos1 pi twoAssets 0.5).
  simpl. lia.
Defined.

Lemma forEachFrom_Forall :
  forall (P : CameraKeyframe -> Prop) sn cs assets baseAngle tpa,
    (forall asset index,
        In asset assets ->
        Forall P (tourCallback sn cs assets baseAngle tpa [] asset index)) ->
    forall arr index movements,
      incl arr assets ->
      Forall P movements ->
      Forall P (forEachFrom (tourCallback sn cs assets baseAngle tpa)
                            index arr movements).
Proof.
  intros P sn cs assets baseAngle tpa Hpush.
  induction arr as [| asset arr IH]; intros index movements Hincl Hall.
  - exact Hall.
  - simpl. apply IH.
    + intros a Ha. apply Hincl. now right.
    + rewrite RigFacts.tourCallback_app. apply Forall_app. split.
      * exact Hall.
      * apply Hpush. apply Hincl. now left.
Qed.

Ltac aimed :=
  unfold wellAimed; simpl;
  split;
  [ first [ left; reflexivity | right; auto; fail | right; simpl; auto ]
  | eexists; split; [reflexivity | lra] ].

Lemma tourCallback_wellAimed :
  forall sn cs center assets baseAngle tpa asset index,
    In asset assets ->
    Forall (wellAimed center assets)
           (tourCallback sn cs assets baseAngle tpa [] asset index).
Proof.
  intros sn cs center assets baseAngle tpa asset index Hin.
  assert (Hnext : (S index <? length assets)%nat = true ->
                  In (nth (S index) assets zero) assets)
    by (intro E; apply nth_In; now apply Nat.ltb_lt).
  unfold tourCallback.
  destruct (S index <? length assets)%nat eqn:E; simpl;
    repeat (apply Forall_cons; [aimed |]); apply Forall_nil.
Qed.

(** Every keyframe the generator returns, for any asset list, looks either
    at the centre of the assets (the origin when there is none) or at one
    of the assets, and has a field of view between 30 and 60 degrees. *)
Theorem keyframes_well_aimed :
  forall sn cs pi props random,
    let assets := assetsPositions props in
    let center :=
      if (0 <? length assets)%nat
      then divideScalar (fold_left add assets zero) (JS.num (length assets))
      else zero in
    Forall (wellAimed center assets)
           (keyframes (generateRandomKeyframes sn cs pi props random)).
Proof.
  intros sn cs pi props random assets center.
  unfold generateRandomKeyframes. fold assets. fold center.
  assert (Hmulti : forall l,
            Forall (wellAimed center l)
              (keyframes (generateMultiAssetAnimation sn cs props center l
                            (random * pi * 2)))).
  { intro l. unfold generateMultiAssetAnimation. simpl keyframes.
    eapply Permutation_Forall; [apply RigFacts.sortByTime_perm |].
    unfold multiAssetMovements, forEach. apply Forall_app. split.
    - apply forEachFrom_Forall.
      + intros asset index Hin. now apply tourCallback_wellAimed.
      + apply incl_refl.
      + unfold introMovements.
        repeat (apply Forall_cons; [aimed |]); apply Forall_nil.
    - apply Forall_cons; [aimed | apply Forall_nil]. }
  destruct assets as [| a [| b l]] eqn:E; try apply Hmulti.
  unfold generateSingleAssetAnimation. simpl keyframes.
  repeat (apply Forall_cons; [aimed |]); apply Forall_nil.
Qed.

(** No keyframe lies outside the duration: for any asset list (a single
    asset on condition that the [duration] prop is at least 20), every
    keyframe time is between 0 and the duration returned. *)
Theorem keyframe_times_within_duration :
  forall sn cs pi props random,
    (length (assetsPositions props) = 1%nat -> 20 <= duration props) ->
    let g := generateRandomKeyframes sn cs pi props random in
    Forall (fun k => 0 <= time k /\ time k <= dynamicDuration g)
           (keyframes g).
Proof.
  intros sn cs pi props random Hd g. subst g.
  unfold generateRandomKeyframes.
  destruct (assetsPositions props) as [| a [| b l]] eqn:E.
  - unfold generateMultiAssetAnimation, multiAssetMovements. simpl.
    pose proof (Q.le_max_l 20 (introDuration + JS.num 0 * minSecondsPerAsset))
      as HD.
    repeat (apply Forall_cons; [simpl; split; lra |]). apply Forall_nil.
  - specialize (Hd eq_refl).
    unfold generateSingleAssetAnimation. simpl.
    repeat (apply Forall_cons; [simpl; split; lra |]). apply Forall_nil.
  - set (center := if (0 <? length (a :: b :: l))%nat
                   then divideScalar (fold_left add (a :: b :: l) zero)
                                     (JS.num (length (a :: b :: l)))
                   else zero).
    destruct (RigFacts.multiAsset_shape sn cs props (a :: b :: l)
                (random * pi * 2) center)
      as (first & middle & Hk & Hfirst & Hasc); [simpl; lia |].
    rewrite Hk. apply Forall_forall. intros k Hin.
    pose proof (RigFacts.ascending_head_le first _ k Hasc Hin) as Hlo.
    pose proof (RigFacts.ascending_le_last _ k first Hasc Hin) as Hhi.
    rewrite app_comm_cons, last_last in Hhi.
    rewrite Hfirst in Hlo. simpl in Hhi.
    split; [exact Hlo | exact Hhi].
Qed.

Lemma keyframe_times_within_duration_witness :
  Forall (fun k => 0 <= time k /\ time k <= 20)
         (keyframes (generateRandomKeyframes sin0 cos1 pi oneAsset 0.5)).
Proof.
  apply (keyframe_times_within_duration sin0 cos1 pi oneAsset 0.5).
  intros _. simpl. lra.
Defined.

End RigMore.

(** ** More on the capture hook *)

Module CaptureMore.

Import Capture CaptureOutcome JSFacts Samples.

(** *** How a capture settles *)

Lemma deref_store_other :
  forall r r' o h, r <> r' -> deref (store r' o h) r = deref h r.
Proof.
  intros r r' o h. revert r r'. unfold deref.
  induction h as [| o' h IH]; intros [| r] [| r'] Hne; simpl; auto;
    congruence.
Qed.

Lemma captureFrame_settles :
  forall encoder duration h s,
    inFlight duration h s ->
    (Z.to_nat (Qceiling (JS.times duration 30)) <= frameCount s)%nat ->
    exists h',
      captureFrame encoder h s
      = (h', outcome encoder (expectedFrames (frameCount s)))
      /\ isRecordingRef h' = false
      /\ outputRef h' = None
      /\ videoSourceRef h' = None
      /\ length (heap h') = length (heap h)
      /\ submitted h' s = expectedFrames (frameCount s)
      /\ (finalizeThrows encoder (expectedFrames (frameCount s)) = None ->
          state (deref (heap h') (output s)) = Finalized).
Proof.
  intros encoder duration h s
         (Hrec & Hout & Hsrc & Hlt & Hfps & Htot & Hst & Hsub) Hk.
  unfold captureFrame. rewrite Hrec, Htot.
  rewrite (CaptureFacts.reached_total_frames _ _ Hk). simpl.
  unfold finishRecording, outcome. rewrite Hout, Hrec, Hsrc. simpl.
  unfold submitted in Hsub. rewrite Hsub.
  destruct (finalizeThrows encoder _) as [e |].
  - eexists. split; [reflexivity |]. unfold submitted. simpl.
    repeat split; auto. discriminate.
  - destruct (mux encoder _) as [video |];
      (eexists; split; [reflexivity |]);
      unfold submitted; simpl;
      rewrite CaptureFacts.store_length,
              CaptureFacts.deref_store by exact Hlt;
      simpl; repeat split; auto.
Qed.

Lemma runCapture_settles :
  forall encoder duration h1 s,
    (forall fs f, addThrows encoder fs f = None) ->
    inFlight duration h1 s ->
    frameCount s = 0%nat ->
    let total := Z.to_nat (Qceiling (JS.times duration 30)) in
    forall ticks, (total < ticks)%nat ->
      exists h2,
        runCapture encoder ticks h1 s
        = (h2, outcome encoder (expectedFrames total))
        /\ isRecordingRef h2 = false
        /\ outputRef h2 = None
        /\ videoSourceRef h2 = None.
Proof.
  intros encoder duration h1 s Hadd Hin Hzero total ticks Ht.
  destruct (CaptureFacts.runCapture_inFlight encoder duration Hadd total
              h1 s Hin) as (h' & s' & E' & Hin' & Hc & Hv);
    [fold total; lia |].
  rewrite Hzero in Hc. simpl in Hc.
  destruct (captureFrame_settles encoder duration h' s' Hin')
    as (h2 & E2 & Hidle2 & Hout2 & Hsrc2 & _); [fold total; lia |].
  exists h2.
  replace ticks with (total + S (ticks - S total))%nat by lia.
  rewrite (CaptureFacts.runCapture_more encoder total _ h1 s h' s' E').
  simpl. rewrite E2, Hc.
  split; [| auto].
  unfold outcome.
  destruct (finalizeThrows encoder _); [reflexivity |].
  destruct (mux encoder _); reflexivity.
Qed.

(** A capture left to run, with an encoder that does not throw on start
    nor on any frame, always settles on the call after the last frame and
    leaves the hook idle with all three refs cleared.  It resolves with the
    buffer the encoder makes of exactly the [ceil(totalFrames)] frames,
    [totalFrames] being the product of the duration and 30 as the machine
    rounds it; it is rejected with the error of [finalize] when that
    throws, and with "Failed to get video buffer" when the target has no
    buffer. *)
Theorem capture_settles_idle :
  forall encoder h canvas duration,
    isRecordingRef h = false ->
    startThrows encoder = None ->
    (forall fs f, addThrows encoder fs f = None) ->
    let total := Z.to_nat (Qceiling (JS.times duration 30)) in
    exists h1 s,
      startRecording encoder h canvas duration = (h1, inr s)
      /\ forall ticks, (total < ticks)%nat ->
           exists h2,
             runCapture encoder ticks h1 s
             = (h2, outcome encoder (expectedFrames total))
             /\ isRecordingRef h2 = false
             /\ outputRef h2 = None
             /\ videoSourceRef h2 = None.
Proof.
  intros encoder h canvas duration Hidle Hstart Hadd total.
  destruct (CaptureFacts.startRecording_inFlight encoder duration h canvas
              Hidle Hstart) as (h1 & s & E & Hin & Hzero).
  exists h1, s. split; [exact E |].
  now apply runCapture_settles.
Qed.

(** A capture of 8.3 seconds settles on call 251, after 250 frames. *)
Lemma capture_settles_idle_witness :
  exists h1 s,
    startRecording reliable init canvas (JS.double 8.3) = (h1, inr s)
    /\ exists h2,
         runCapture reliable 251 h1 s = (h2, Resolved [])
         /\ isRecordingRef h2 = false.
Proof.
  destruct (capture_settles_idle reliable init canvas (JS.double 8.3))
    as (h1 & s & E & Hdone); [reflexivity .. |].
  exists h1, s. split; [exact E |].
  destruct (Hdone 251%nat) as (h2 & E2 & Hidle & _); [vm_compute; lia |].
  exists h2. split; [exact E2 | exact Hidle].
Defined.

(** *** One capture and the outputs of the others *)

Lemma captureFrame_isolated :
  forall encoder h s r,
    r <> videoSource s ->
    outputRef h <> Some r ->
    deref (heap (fst (captureFrame encoder h s))) r = deref (heap h) r.
Proof.
  intros encoder h s r Hsrc Hout. unfold captureFrame.
  destruct (negb (isRecordingRef h)
            || JS.ge (JS.num (frameCount s)) (totalFrames s)).
  - unfold finishRecording.
    destruct (outputRef h) as [r' |]; [| reflexivity].
    destruct (negb (isRecordingRef h)); [reflexivity |].
    destruct (finalizeThrows encoder _); [reflexivity |].
    assert (Hne : r <> r') by congruence.
    destruct (mux encoder _); simpl; now apply deref_store_other.
  - destruct (addThrows encoder _ _); [reflexivity |].
    simpl. now apply deref_store_other.
Qed.

Lemma captureFrame_keeps_outputRef :
  forall encoder h s h' s',
    captureFrame encoder h s = (h', Scheduled s') ->
    outputRef h' = outputRef h /\ videoSource s' = videoSource s.
Proof.
  intros encoder h s h' s'. unfold captureFrame.
  destruct (negb (isRecordingRef h)
            || JS.ge (JS.num (frameCount s)) (totalFrames s)).
  - destruct (finishRecording encoder h) as [h1 [e | video]]; discriminate.
  - destruct (addThrows encoder _ _); [discriminate |].
    intro E. inversion E. subst. simpl. auto.
Qed.

(** A capture changes no output but its own: over any number of calls of
    [captureFrame], with any encoder, an output that is neither the one the
    closure submits to nor the one [outputRef] points at keeps its state,
    its frames and its buffer. *)
Theorem capture_touches_only_its_output :
  forall encoder ticks h s r,
    r <> videoSource s ->
    outputRef h <> Some r ->
    deref (heap (fst (runCapture encoder ticks h s))) r = deref (heap h) r.
Proof.
  intros encoder. induction ticks as [| ticks IH]; intros h s r Hsrc Hout.
  - reflexivity.
  - simpl.
    pose proof (captureFrame_isolated encoder h s r Hsrc Hout) as Hstep.
    destruct (captureFrame encoder h s) as [h' [s' | video | e]] eqn:E;
      simpl in Hstep; [| exact Hstep | exact Hstep].
    destruct (captureFrame_keeps_outputRef encoder h s h' s' E) as [Ho Hv].
    rewrite IH; [exact Hstep | congruence | congruence].
Qed.

(** Two captures one after the other on the reliable encoder: the second
    runs on a fresh output, and the two frames of the first are still in
    its finalised output afterwards. *)
Lemma capture_touches_only_its_output_witness :
  exists h1 s1 h2 h3 s2,
    startRecording reliable init canvas 0.05 = (h1, inr s1)
    /\ runCapture reliable 3 h1 s1 = (h2, Resolved [])
    /\ startRecording reliable h2 canvas 1 = (h3, inr s2)
    /\ deref (heap (fst (runCapture reliable 9 h3 s2))) (output s1)
       = mkOutput Finalized (expectedFrames 2) (Some []).
Proof.
  eexists. eexists. eexists. eexists. eexists.
  split; [reflexivity |]. split; [reflexivity |]. split; [reflexivity |].
  rewrite capture_touches_only_its_output.
  - reflexivity.
  - simpl. discriminate.
  - simpl. discriminate.
Defined.

(** *** Stopping *)

(** Stopping a capture in progress clears the three refs whether [cancel]
    throws or not; the call of [captureFrame] that was pending then rejects
    the promise with "No active recording" and submits nothing, and a second
    [stopRecording] does nothing. *)
Theorem stop_rejects_pending_capture :
  forall encoder h s r,
    isRecordingRef h = true ->
    outputRef h = Some r ->
    let h' := fst (stopRecording encoder h) in
    snd (stopRecording encoder h) = cancelThrows encoder
    /\ isRecordingRef h' = false
    /\ outputRef h' = None
    /\ videoSourceRef h' = None
    /\ added (deref (heap h') r) = added (deref (heap h) r)
    /\ (forall ticks,
          runCapture encoder (S ticks) h' s
          = (h', Rejected (JsError "No active recording")))
    /\ stopRecording encoder h' = (h', None).
Proof.
  intros encoder h s r Hrec Hout h'. subst h'.
  assert (Hstop :
    stopRecording encoder h
    = match cancelThrows encoder with
      | Some e => (cleanUp (heap h), Some e)
      | None =>
          (cleanUp (store r (mkOutput Canceled (added (deref (heap h) r))
                                      (buffer (deref (heap h) r)))
                          (heap h)),
           None)
      end)
    by (unfold stopRecording; rewrite Hout, Hrec; reflexivity).
  rewrite Hstop.
  destruct (cancelThrows encoder) as [e |]; simpl;
    (split; [reflexivity |]); (split; [reflexivity |]);
    (split; [reflexivity |]); (split; [reflexivity |]);
    (split; [| split; [intro ticks; reflexivity | reflexivity]]).
  - reflexivity.
  - destruct (Nat.lt_ge_cases r (length (heap h))) as [Hlt | Hge].
    + now rewrite CaptureFacts.deref_store.
    + unfold deref. rewrite !nth_overflow;
        [reflexivity | exact Hge | now rewrite CaptureFacts.store_length].
Qed.

Lemma stop_rejects_pending_capture_witness :
  exists h1 s,
    startRecording reliable init canvas 20 = (h1, inr s)
    /\ runCapture reliable 5
         (fst (stopRecording reliable (fst (runCapture reliable 2 h1 s)))) s
       = (fst (stopRecording reliable (fst (runCapture reliable 2 h1 s))),
          Rejected (JsError "No active recording")).
Proof.
  eexists. eexists. split; [reflexivity |].
  apply (stop_rejects_pending_capture reliable _ _ 0%nat); reflexivity.
Defined.

(** *** A start that throws *)

(** When [output.start()] throws, [startRecording] fails with that error
    but has already set the recording flag and the refs: every further
    [startRecording] throws "Already recording" until [stopRecording] is
    called, which makes the hook idle again. *)
Theorem failed_start_locks_hook :
  forall encoder h canvas duration e,
    isRecordingRef h = false ->
    startThrows encoder = Some e ->
    let h1 := fst (startRecording encoder h canvas duration) in
    snd (startRecording encoder h canvas duration) = inl e
    /\ (forall canvas' duration',
          startRecording encoder h1 canvas' duration'
          = (h1, inl (JsError "Already recording")))
    /\ isRecordingRef (fst (stopRecording encoder h1)) = false
    /\ outputRef (fst (stopRecording encoder h1)) = None.
Proof.
  intros encoder h canvas duration e Hidle Hstart h1. subst h1.
  assert (E : startRecording encoder h canvas duration
              = (mkHook true (Some (length (heap h)))
                        (Some (length (heap h)))
                        (heap h ++ [mkOutput Pending [] None]),
                 inl e))
    by (unfold startRecording; rewrite Hidle, Hstart; reflexivity).
  rewrite E. simpl.
  split; [reflexivity |]. split; [reflexivity |].
  unfold stopRecording. simpl.
  destruct (cancelThrows encoder); simpl; auto.
Qed.

Lemma failed_start_locks_hook_witness :
  startRecording (mkEncoder (Some (EncoderError 3)) (fun _ _ => None)
                            (fun _ => None) (fun _ => None) None)
    (fst (startRecording
            (mkEncoder (Some (EncoderError 3)) (fun _ _ => None)
                       (fun _ => None) (fun _ => None) None)
            init canvas 20))
    canvas 5
  = (fst (startRecording
            (mkEncoder (Some (EncoderError 3)) (fun _ _ => None)
                       (fun _ => None) (fun _ => None) None)
            init canvas 20),
     inl (JsError "Already recording")).
Proof.
  apply (failed_start_locks_hook
           (mkEncoder (Some (EncoderError 3)) (fun _ _ => None)
                      (fun _ => None) (fun _ => None) None)
           init canvas 20 (EncoderError 3)); reflexivity.
Defined.

End CaptureMore.

(** ** The asset manager *)

Module AssetsFacts.

Import THREE Assets Samples MoreSamples.

(** *** File names *)

Lemma allNotSlashNorDot_dot :
  forall s t, allNotSlashNorDot (s ++ String "." t) = false.
Proof.
  induction s as [| c s IH]; intro t; simpl.
  - reflexivity.
  - rewrite IH. apply andb_false_r.
Qed.

Lemma extensionAt_before_dot :
  forall c s t, extensionAt (String c (s ++ String "." t)) = false.
Proof.
  intros c s t. unfold extensionAt.
  destruct (s ++ String "." t)%string as [| c' s'] eqn:E.
  - destruct s; discriminate.
  - rewrite <- E, allNotSlashNorDot_dot. apply andb_false_r.
Qed.

Lemma extensionAt_no_dot :
  forall s, allNotSlashNorDot s = true -> extensionAt s = false.
Proof.
  intros [| c [| c' s]] H; try reflexivity. simpl in *.
  apply andb_true_iff in H as [Hc _]. unfold notSlashNorDot in Hc.
  apply andb_true_iff in Hc as [_ Hc].
  destruct (Ascii.eqb c "."); [discriminate | reflexivity].
Qed.

Lemma removeExtension_eq :
  forall s,
    removeExtension s
    = if extensionAt s then EmptyString
      else match s with
           | EmptyString => EmptyString
           | String c s' => String c (removeExtension s')
           end.
Proof. intros [| c s]; reflexivity. Qed.

(** The asset name is the file name without its last extension: a name
    that ends in a dot followed by at least one character, none of them a
    dot or a slash, loses exactly that ending, whatever comes before it; a
    name without any dot or slash is kept as it is. *)
Theorem removeExtension_strips_last_extension :
  forall base ext,
    ext <> EmptyString ->
    allNotSlashNorDot ext = true ->
    removeExtension (base ++ String "." ext) = base
    /\ removeExtension ext = ext.
Proof.
  intros base ext Hne Hext. split.
  - induction base as [| c base IH].
    + destruct ext as [| c' ext]; [congruence |].
      assert (E : extensionAt (String "." (String c' ext)) = true)
        by (unfold extensionAt; rewrite Hext; reflexivity).
      change (EmptyString ++ String "." (String c' ext))%string
        with (String "." (String c' ext)).
      rewrite removeExtension_eq, E. reflexivity.
    + change (String c base ++ String "." ext)%string
        with (String c (base ++ String "." ext)).
      rewrite removeExtension_eq, extensionAt_before_dot, IH. reflexivity.
  - clear Hne. induction ext as [| c ext IH]; [reflexivity |].
    rewrite removeExtension_eq, (extensionAt_no_dot _ Hext).
    simpl in Hext. apply andb_true_iff in Hext as [_ Hext].
    now rewrite IH.
Qed.

Lemma removeExtension_strips_last_extension_witness :
  removeExtension "old.chair.v2.glb" = "old.chair.v2"%string
  /\ removeExtension "glb" = "glb"%string.
Proof.
  apply (removeExtension_strips_last_extension "old.chair.v2" "glb");
    [discriminate | reflexivity].
Defined.

(** *** Removing *)

Lemma filter_all :
  forall (A : Type) (f : A -> bool) l,
    Forall (fun a => f a = true) l -> filter f l = l.
Proof.
  intros A f. induction l as [| a l IH]; intro H; [reflexivity |].
  apply Forall_cons_iff in H as [Ha H]. simpl. rewrite Ha. now rewrite IH.
Qed.

Lemma find_none :
  forall (A : Type) (f : A -> bool) l,
    Forall (fun a => f a = false) l -> find f l = None.
Proof.
  intros A f. induction l as [| a l IH]; intro H; [reflexivity |].
  apply Forall_cons_iff in H as [Ha H]. simpl. rewrite Ha. now apply IH.
Qed.

(** Removing an id leaves no asset with that id, keeps every other asset,
    and revokes the object URL of the asset removed; removing an id that no
    asset has changes nothing, neither the assets nor the object URLs. *)
Theorem removeAsset_removes_only_that_id :
  forall m i,
    Forall (fun a => id a <> i) (assets (removeAsset m i))
    /\ (forall a, id a <> i ->
          (In a (assets (removeAsset m i)) <-> In a (assets m)))
    /\ (forall a, find (fun a => String.eqb (id a) i) (assets m) = Some a ->
          ~ In (url a) (objectURLs (removeAsset m i)))
    /\ (Forall (fun a => id a <> i) (assets m) -> removeAsset m i = m).
Proof.
  intros m i. unfold removeAsset. simpl. repeat split.
  - apply Forall_forall. intros a Ha. apply filter_In in Ha as [_ Ha].
    apply negb_true_iff, String.eqb_neq in Ha. exact Ha.
  - intro Ha. now apply filter_In in Ha.
  - intro Ha. apply filter_In. split; [exact Ha |].
    now apply negb_true_iff, String.eqb_neq.
  - intros a Hfind. rewrite Hfind. unfold revoke. intro Hin.
    apply filter_In in Hin as [_ Hin].
    rewrite String.eqb_refl in Hin. discriminate.
  - intro Hall. destruct m as [l up urls]. simpl in *.
    rewrite filter_all, find_none; [reflexivity | |];
      (eapply Forall_impl; [| exact Hall]); simpl; intros a Ha.
    + now apply String.eqb_neq.
    + now apply negb_true_iff, String.eqb_neq.
Qed.

Lemma removeAsset_removes_only_that_id_witness :
  removeAsset twoManaged "asset-9-zzz" = twoManaged.
Proof.
  apply (removeAsset_removes_only_that_id twoManaged "asset-9-zzz").
  repeat constructor; discriminate.
Defined.

(** *** Adding *)

(** Adding a file and then removing the asset it made restores the assets
    and the object URLs as they were, provided the id generated is not the
    id of an asset already there and the object URL is a new one. *)
Theorem add_then_remove_restores :
  forall sn cs pi m fileName objectURL now r1 r2 token r4 r5,
    Forall (fun a => id a <> makeId now token) (assets m) ->
    ~ In objectURL (objectURLs m) ->
    let added := addAsset sn cs pi m fileName objectURL now r1 r2 token r4 r5 in
    removeAsset (fst added) (id (snd added))
    = mkManager (assets m) false (objectURLs m).
Proof.
  intros sn cs pi m fileName objectURL now r1 r2 token r4 r5
         Hfresh Hurl added. subst added.
  unfold addAsset, removeAsset. simpl.
  assert (Hfalse : Forall (fun a => String.eqb (id a) (makeId now token)
                                    = false) (assets m))
    by (eapply Forall_impl; [| exact Hfresh]; simpl; intros a Ha;
        now apply String.eqb_neq).
  assert (Hkeep : Forall (fun a => negb (String.eqb (id a)
                                           (makeId now token)) = true)
                         (assets m))
    by (eapply Forall_impl; [| exact Hfalse]; simpl; intros a Ha;
        now rewrite Ha).
  rewrite filter_app, (filter_all _ _ _ Hkeep). simpl.
  rewrite String.eqb_refl. simpl. rewrite app_nil_r.
  assert (Hfind : find (fun a => String.eqb (id a) (makeId now token))
                       (assets m ++ [mkAsset (makeId now token)
                          (removeExtension fileName) objectURL
                          (placeAt sn cs (r1 * pi * 2) (1 + r2 * 3))
                          (mkEuler 0 (r4 * pi * 2) 0)
                          (1 + (r5 - 0.5) * 0.5)])
                  = Some (mkAsset (makeId now token)
                          (removeExtension fileName) objectURL
                          (placeAt sn cs (r1 * pi * 2) (1 + r2 * 3))
                          (mkEuler 0 (r4 * pi * 2) 0)
                          (1 + (r5 - 0.5) * 0.5))).
  { clear Hkeep. induction (assets m) as [| a l IH]; simpl.
    - now rewrite String.eqb_refl.
    - apply Forall_cons_iff in Hfalse as [Ha Hl]. rewrite Ha.
      apply IH; [| exact Hl]. now apply Forall_cons_iff in Hfresh. }
  rewrite Hfind. simpl. unfold revoke.
  rewrite filter_app. simpl. rewrite String.eqb_refl. simpl.
  rewrite app_nil_r, filter_all; [reflexivity |].
  apply Forall_forall. intros u Hu.
  apply negb_true_iff, String.eqb_neq. congruence.
Qed.

Lemma add_then_remove_restores_witness :
  removeAsset
    (fst (addAsset sin0 cos1 pi twoManaged "table.glb" "blob:3" 1700
                   0.25 0.5 "k3v9" 0.75 0.5))
    (makeId 1700 "k3v9")
  = twoManaged.
Proof.
  apply (add_then_remove_restores sin0 cos1 pi twoManaged "table.glb"
           "blob:3" 1700 0.25 0.5 "k3v9" 0.75 0.5).
  - repeat constructor; discriminate.
  - simpl. intros [H | [H | []]]; discriminate.
Defined.

(** A new asset is appended after the assets already there, stands at
    ground level, is named after the file without its extension and, for
    a random number from 0 up to 1, has a scale from 0.75 to 1.25, both
    included: rounded, the scale for a random number just below 1 is 1.25
    itself. *)
Theorem addAsset_appends_in_range :
  forall sn cs pi m fileName objectURL now r1 r2 token r4 r5,
    0 <= r5 -> r5 < 1 ->
    let added := addAsset sn cs pi m fileName objectURL now r1 r2 token r4 r5 in
    assets (fst added) = assets m ++ [snd added]
    /\ y (position (snd added)) = 0
    /\ name (snd added) = removeExtension fileName
    /\ 0.75 <= scale (snd added) /\ scale (snd added) <= 1.25
    /\ In objectURL (objectURLs (fst added)).
Proof.
  intros sn cs pi m fileName objectURL now r1 r2 token r4 r5 H0 H1 added.
  subst added. unfold addAsset. simpl.
  repeat split; try lra. apply in_or_app. right. now left.
Qed.

Lemma addAsset_appends_in_range_witness :
  0.75 <= scale (snd (addAsset sin0 cos1 pi twoManaged "table.glb" "blob:3"
                               1700 0.25 0.5 "k3v9" 0.75 0.9))
  /\ scale (snd (addAsset sin0 cos1 pi twoManaged "table.glb" "blob:3"
                          1700 0.25 0.5 "k3v9" 0.75 0.9)) <= 1.25.
Proof.
  destruct (addAsset_appends_in_range sin0 cos1 pi twoManaged "table.glb"
              "blob:3" 1700 0.25 0.5 "k3v9" 0.75 0.9)
    as (_ & _ & _ & Hlo & Hhi & _); [lra | lra |].
  split; [exact Hlo | exact Hhi].
Defined.

(** *** Updating *)

(** An update keeps the ids, the number and the order of the assets; it
    changes nothing when no asset has the id; and after an update of the
    position, the positions handed to the camera rig are the new position
    for the assets with that id and the old ones for the others. *)
Theorem updateAsset_keeps_ids :
  forall m i updates p,
    map id (assets (updateAsset m i updates)) = map id (assets m)
    /\ (Forall (fun a => id a <> i) (assets m) ->
        updateAsset m i updates = m)
    /\ getAssetsPositions
         (updateAsset m i (mkUpdates None None (Some p) None None))
       = map (fun a => if String.eqb (id a) i then p else position a)
             (assets m).
Proof.
  intros m i updates p. unfold updateAsset, getAssetsPositions. simpl.
  repeat split.
  - rewrite map_map. apply map_ext. intro a.
    destruct (String.eqb (id a) i); reflexivity.
  - intro Hall. destruct m as [l up urls]. simpl in *. f_equal.
    induction l as [| a l IH]; [reflexivity |].
    apply Forall_cons_iff in Hall as [Ha Hall]. simpl.
    apply String.eqb_neq in Ha. rewrite Ha. now rewrite IH.
  - rewrite map_map. apply map_ext. intro a.
    destruct (String.eqb (id a) i); reflexivity.
Qed.

Lemma updateAsset_keeps_ids_witness :
  updateAsset twoManaged "asset-9-zzz"
              (mkUpdates None None None None (Some 2))
  = twoManaged.
Proof.
  apply (updateAsset_keeps_ids twoManaged "asset-9-zzz"
           (mkUpdates None None None None (Some 2)) zero).
  repeat constructor; discriminate.
Defined.

(** *** Randomising and clearing *)

Lemma randomizeFrom_keeps :
  forall sn cs pi random l k,
    map id (randomizeFrom sn cs pi random k l) = map id l
    /\ map name (randomizeFrom sn cs pi random k l) = map name l
    /\ map url (randomizeFrom sn cs pi random k l) = map url l
    /\ map scale (randomizeFrom sn cs pi random k l) = map scale l
    /\ Forall (fun a => y (position a) = 0
                        /\ ex (rotation a) = 0 /\ ez (rotation a) = 0)
              (randomizeFrom sn cs pi random k l).
Proof.
  intros sn cs pi random. induction l as [| a l IH]; intro k; simpl.
  - repeat split; constructor.
  - destruct (IH (S (S (S k)))) as (H1 & H2 & H3 & H4 & H5).
    rewrite H1, H2, H3, H4. repeat split. constructor; [| exact H5].
    simpl. auto.
Qed.

(** Randomising the positions keeps every asset's id, name, object URL and
    scale, in the same order, and leaves every asset at ground level and
    turned about the vertical axis only, whatever the random numbers. *)
Theorem randomizePositions_keeps_identity :
  forall sn cs pi m random,
    let m' := randomizePositions sn cs pi m random in
    map id (assets m') = map id (assets m)
    /\ map name (assets m') = map name (assets m)
    /\ map url (assets m') = map url (assets m)
    /\ map scale (assets m') = map scale (assets m)
    /\ Forall (fun a => y (position a) = 0
                        /\ ex (rotation a) = 0 /\ ez (rotation a) = 0)
              (assets m')
    /\ objectURLs m' = objectURLs m.
Proof.
  intros sn cs pi m random m'. subst m'. unfold randomizePositions. simpl.
  destruct (randomizeFrom_keeps sn cs pi random (assets m) 0)
    as (H1 & H2 & H3 & H4 & H5).
  repeat split; assumption.
Qed.

Lemma revoke_not_in :
  forall u urls, ~ In u (revoke u urls).
Proof.
  intros u urls Hin. unfold revoke in Hin.
  apply filter_In in Hin as [_ Hin].
  rewrite String.eqb_refl in Hin. discriminate.
Qed.

Lemma revoke_all_spec :
  forall (l : list Asset) urls u,
    In u (fold_left (fun urls a => revoke (url a) urls) l urls)
    <-> In u urls /\ Forall (fun a => url a <> u) l.
Proof.
  induction l as [| a l IH]; intros urls u; simpl.
  - split; [intro H; split; [exact H | constructor] | tauto].
  - rewrite IH. unfold revoke. rewrite filter_In, negb_true_iff,
      String.eqb_neq. split.
    + intros [[Hin Hne] Hall]. split; [exact Hin |].
      constructor; [congruence | exact Hall].
    + intros [Hin Hall]. apply Forall_cons_iff in Hall as [Hne Hall].
      repeat split; [exact Hin | congruence | exact Hall].
Qed.

(** Clearing leaves no asset and revokes the object URL of every asset
    there was, and no other: an object URL is still live afterwards exactly
    when it was live before and belongs to none of the assets. *)
Theorem clearAssets_revokes_every_url :
  forall m u,
    assets (clearAssets m) = []
    /\ (In u (objectURLs (clearAssets m))
        <-> In u (objectURLs m) /\ Forall (fun a => url a <> u) (assets m)).
Proof.
  intros m u. unfold clearAssets. simpl. split; [reflexivity |].
  apply revoke_all_spec.
Qed.

End AssetsFacts.

(** ** The paced capture hook *)

Module PacedFacts.

Import Samples JSFacts PacedCapture.

Lemma canvas_eta :
  forall c c' : Capture.Canvas,
    Capture.width c' = Capture.width c ->
    Capture.height c' = Capture.height c ->
    c' = c.
Proof. intros [w h] [w' h']. simpl. congruence. Qed.

Section Loop.

Variable studio : Studio.
Variable duration : Q.
Variable locked : Capture.Canvas.

Hypothesis add_never_throws :
  forall fs f, Capture.addThrows (encoder studio) fs f = None.

Lemma paced_startRecording_inFlight :
  forall w enableMusic random now,
    isRecordingRef w = false ->
    Capture.startThrows (encoder studio) = None ->
    canvas w = locked ->
    exists w1 s,
      startRecording studio w duration enableMusic random now = (w1, inr s)
      /\ inFlight duration locked w1 s
      /\ frameCount s = 0%nat
      /\ canvas w1 = locked.
Proof.
  intros w enableMusic random now Hidle Hstart Hcanvas.
  unfold startRecording. rewrite Hidle, Hstart. eexists. eexists.
  split; [reflexivity |].
  unfold inFlight, submitted. simpl.
  rewrite CaptureFacts.store_alloc. unfold Capture.deref.
  rewrite nth_middle, length_app, Hcanvas. simpl.
  repeat split; lia.
Qed.

Lemma paced_captureFrame_inFlight :
  forall w s now,
    inFlight duration locked w s ->
    (frameCount s < Z.to_nat (Qceiling (JS.times duration 30)))%nat ->
    exists w' s' wait,
      captureFrame studio w s now = (w', Scheduled s' wait)
      /\ inFlight duration locked w' s'
      /\ frameCount s' = S (frameCount s)
      /\ videoSource s' = videoSource s
      /\ canvas w' = locked.
Proof.
  intros w s now (Hrec & Hout & Hlt & Hfps & Htot & Hw & Hh & Hsub) Hk.
  unfold captureFrame. rewrite Hrec, Htot.
  rewrite (CaptureFacts.below_total_frames _ _ Hk). simpl.
  rewrite add_never_throws. eexists. eexists. eexists.
  split; [reflexivity |].
  unfold inFlight, submitted. simpl.
  rewrite CaptureFacts.store_length, CaptureFacts.deref_store by exact Hlt.
  simpl. unfold submitted in Hsub.
  rewrite Hsub, CaptureFacts.expectedFrames_S, Hfps.
  repeat split; auto.
  rewrite Hw, Hh.
  destruct (Z.eqb (Capture.width (canvas w)) (Capture.width locked)) eqn:E1;
    destruct (Z.eqb (Capture.height (canvas w)) (Capture.height locked))
      eqn:E2; simpl; try (destruct locked; reflexivity).
  apply Z.eqb_eq in E1, E2. now apply canvas_eta.
Qed.

Lemma resize_inFlight :
  forall w s resized,
    inFlight duration locked w s ->
    inFlight duration locked
      (match resized with Some c => resize w c | None => w end) s.
Proof. intros w s [c |] H; exact H. Qed.

Lemma paced_runCapture_inFlight :
  forall events w s,
    inFlight duration locked w s ->
    (frameCount s + length events
     <= Z.to_nat (Qceiling (JS.times duration 30)))%nat ->
    exists w' s',
      runCapture studio events w s = (w', Scheduled s' None)
      /\ inFlight duration locked w' s'
      /\ frameCount s' = (frameCount s + length events)%nat
      /\ videoSource s' = videoSource s
      /\ (events <> [] -> canvas w' = locked).
Proof.
  induction events as [| [resized now] events IH]; intros w s Hin Hk.
  - exists w, s. simpl.
    split; [reflexivity | split; [exact Hin |]].
    split; [lia | split; [reflexivity | congruence]].
  - simpl in Hk.
    pose proof (resize_inFlight w s resized Hin) as Hin0.
    destruct (paced_captureFrame_inFlight _ s now Hin0)
      as (w1 & s1 & wait & E & Hin1 & Hc & Hv & Hcanvas); [lia |].
    destruct (IH w1 s1 Hin1) as (w2 & s2 & E2 & Hin2 & Hc2 & Hv2 & Hcv2);
      [lia |].
    exists w2, s2. simpl. rewrite E, E2.
    split; [reflexivity | split; [exact Hin2 |]].
    split; [lia | split; [congruence |]].
    intros _. destruct events as [| ev events'].
    + simpl in E2. injection E2 as Hw2 Hs2. rewrite <- Hw2. exact Hcanvas.
    + apply Hcv2. discriminate.
Qed.

Lemma paced_captureFrame_finishes :
  forall w s now,
    inFlight duration locked w s ->
    (Z.to_nat (Qceiling (JS.times duration 30)) <= frameCount s)%nat ->
    exists w' t,
      captureFrame studio w s now = (w', t)
      /\ settled t
      /\ isRecordingRef w' = false
      /\ outputRef w' = None
      /\ submitted w' s = Capture.expectedFrames (frameCount s).
Proof.
  intros w s now (Hrec & Hout & Hlt & Hfps & Htot & Hw & Hh & Hsub) Hk.
  unfold captureFrame. rewrite Hrec, Htot.
  rewrite (CaptureFacts.reached_total_frames _ _ Hk). simpl.
  unfold finishRecording. rewrite Hout, Hrec. simpl.
  unfold submitted in Hsub.
  destruct (Capture.finalizeThrows (encoder studio) _) as [e |].
  - eexists. eexists. split; [reflexivity |].
    unfold submitted. simpl. auto.
  - destruct (Capture.mux (encoder studio) _) as [video |];
      (eexists; eexists; split; [reflexivity |]);
      unfold submitted; simpl;
      rewrite CaptureFacts.deref_store by exact Hlt; simpl; auto.
Qed.

End Loop.

Lemma paced_runCapture_more :
  forall studio events events' w s w' s',
    runCapture studio events w s = (w', Scheduled s' None) ->
    runCapture studio (events ++ events') w s
    = runCapture studio events' w' s'.
Proof.
  intros studio. induction events as [| [resized now] events IH];
    intros events' w s w' s' E; simpl in *.
  - congruence.
  - destruct (captureFrame studio _ s now) as [w1 [s1 wait | video | e]];
      try discriminate.
    now apply IH.
Qed.

(** With music or without, whatever the clock reads at each call and
    however the canvas is resized between the calls, the paced loop submits
    the same frames as the plain one: after [n] calls, up to
    [ceil(totalFrames)], the [n] frames stamped [i / 30], with the canvas
    back at the size it had when the capture started; on the call after the
    last frame it settles and the hook is idle.  [totalFrames] is the
    product of the duration and 30 as the machine rounds it.  No frame is
    dropped or repeated for running late or early. *)
Theorem paced_capture_same_frames :
  forall studio w duration enableMusic random now events,
    isRecordingRef w = false ->
    Capture.startThrows (encoder studio) = None ->
    (forall fs f, Capture.addThrows (encoder studio) fs f = None) ->
    let total := Z.to_nat (Qceiling (JS.times duration 30)) in
    exists w1 s,
      startRecording studio w duration enableMusic random now = (w1, inr s)
      /\ ((length events <= total)%nat ->
          exists w2 s',
            runCapture studio events w1 s = (w2, Scheduled s' None)
            /\ frameCount s' = length events
            /\ submitted w2 s = Capture.expectedFrames (length events)
            /\ canvas w2 = canvas w)
      /\ ((total < length events)%nat ->
          exists w2 t,
            runCapture studio events w1 s = (w2, t)
            /\ settled t
            /\ isRecordingRef w2 = false
            /\ submitted w2 s = Capture.expectedFrames total).
Proof.
  intros studio w duration enableMusic random now events
         Hidle Hstart Hadd total.
  destruct (paced_startRecording_inFlight studio duration (canvas w) w enableMusic
              random now Hidle Hstart eq_refl)
    as (w1 & s & E & Hin & Hzero & Hcanvas).
  exists w1, s. split; [exact E |]. split.
  - intro Hlen.
    destruct (paced_runCapture_inFlight studio duration (canvas w) Hadd events
                w1 s Hin) as (w2 & s' & E2 & Hin2 & Hc & Hv & Hcv);
      [fold total; lia |].
    exists w2, s'. split; [exact E2 |]. rewrite Hzero in Hc. simpl in Hc.
    split; [exact Hc |]. split.
    + destruct Hin2 as (_ & _ & _ & _ & _ & _ & _ & Hsub).
      unfold submitted in *. rewrite <- Hv, Hsub, Hc. reflexivity.
    + destruct events as [| ev events'].
      * simpl in E2. injection E2 as Hw2 Hs2. rewrite <- Hw2. exact Hcanvas.
      * apply Hcv. discriminate.
  - intro Hlen.
    rewrite <- (firstn_skipn total events).
    assert (Hfirst : length (firstn total events) = total)
      by (rewrite length_firstn; lia).
    destruct (paced_runCapture_inFlight studio duration (canvas w) Hadd
                (firstn total events) w1 s Hin)
      as (w2 & s' & E2 & Hin2 & Hc & Hv & _); [fold total; lia |].
    rewrite (paced_runCapture_more studio _ _ w1 s w2 s' E2).
    destruct (skipn total events) as [| [resized now'] rest] eqn:Eskip.
    + apply (f_equal (@length _)) in Eskip. rewrite length_skipn in Eskip.
      simpl in Eskip. lia.
    + pose proof (resize_inFlight duration (canvas w) w2 s' resized Hin2)
        as Hin3.
      destruct (paced_captureFrame_finishes studio duration (canvas w) _ s' now'
                  Hin3) as (w3 & t & E3 & Hset & Hidle3 & _ & Hsub);
        [fold total; lia |].
      exists w3, t. simpl. rewrite E3.
      rewrite Hzero, Hfirst in Hc. simpl in Hc.
      unfold submitted in *. rewrite <- Hv, Hsub, Hc.
      destruct t; [contradiction | auto | auto].
Qed.

Lemma paced_capture_same_frames_witness :
  exists w1 s w2 s',
    startRecording (mkStudio reliable (mkAudioEnv (Some 180) false (Some 1%nat))
                             false)
      (init Samples.canvas) 20 true 0.5 1000 = (w1, inr s)
    /\ runCapture (mkStudio reliable
                     (mkAudioEnv (Some 180) false (Some 1%nat)) false)
         [(None, 1001); (Some (Capture.mkCanvas 640 360), 5000)] w1 s
       = (w2, Scheduled s' None)
    /\ submitted w2 s = Capture.expectedFrames 2
    /\ canvas w2 = Samples.canvas.
Proof.
  destruct (paced_capture_same_frames
              (mkStudio reliable (mkAudioEnv (Some 180) false (Some 1%nat))
                        false)
              (init Samples.canvas) 20 true 0.5 1000
              [(None, 1001); (Some (Capture.mkCanvas 640 360), 5000)])
    as (w1 & s & E & Hrun & _); [reflexivity .. |].
  destruct Hrun as (w2 & s' & E2 & _ & Hsub & Hcanvas);
    [vm_compute; lia |].
  exists w1, s, w2, s'. auto.
Defined.

(** *** The music *)

(** The music is loaded exactly when the metadata loads, nothing throws
    and the stream has an audio track; it then loops, plays at gain 0.3 and,
    for a random number between 0 and 1, starts at a point of the file from
    which the whole duration fits when the file is long enough, and at the
    beginning when it is not. *)
Theorem music_window_fits :
  forall env duration random,
    (createAudioStreamFromFile env duration random = None
     <-> metadata env = None \/ playThrows env = true
         \/ audioTrack env = None)
    /\ (forall st audioDuration,
          createAudioStreamFromFile env duration random = Some st ->
          metadata env = Some audioDuration ->
          0 <= random -> random <= 1 ->
          Some (audioSource st) = audioTrack env
          /\ loop st = true /\ gain st = 0.3
          /\ 0 <= currentTime st
          /\ (duration <= audioDuration ->
              currentTime st + duration <= audioDuration)
          /\ (audioDuration <= duration -> currentTime st == 0)).
Proof.
  intros env duration random. unfold createAudioStreamFromFile. split.
  - destruct (metadata env) as [L |]; [| tauto].
    destruct (playThrows env); [tauto |].
    destruct (audioTrack env) as [track |]; [| tauto].
    split; [discriminate |]. intros [H | [H | H]]; discriminate.
  - intros st L Hst HL H0 H1. rewrite HL in Hst.
    destruct (playThrows env); [discriminate |].
    destruct (audioTrack env) as [track |]; [| discriminate].
    injection Hst as <-. simpl.
    split; [reflexivity |]. split; [reflexivity |]. split; [reflexivity |].
    destruct (Q.max_spec 0 (L - duration)) as [[Hlt Hmax] | [Hle Hmax]];
      rewrite Hmax.
    + assert (Hp : 0 <= random * (L - duration))
        by (apply Qmult_le_0_compat; lra).
      assert (Hq : 0 <= (1 - random) * (L - duration))
        by (apply Qmult_le_0_compat; lra).
      assert (E : (1 - random) * (L - duration)
                  == (L - duration) - random * (L - duration)) by ring.
      repeat split; lra.
    + assert (E : random * 0 == 0) by ring.
      repeat split; lra.
Qed.

Lemma music_window_fits_witness :
  exists st,
    createAudioStreamFromFile (mkAudioEnv (Some 180) false (Some 1%nat))
                              20 0.5 = Some st
    /\ currentTime st + 20 <= 180.
Proof.
  eexists. split; [reflexivity |].
  destruct (music_window_fits (mkAudioEnv (Some 180) false (Some 1%nat))
              20 0.5) as [_ H].
  destruct (H _ 180 eq_refl eq_refl) as (_ & _ & _ & _ & Hfit & _);
    [lra | lra |].
  apply Hfit. lra.
Defined.



(** A timer left by the capture before does not wait for it.  When the
    next capture, with music, has stored its cleanup in the ref before the
    timer fires, the timer finds the cleanup of the new capture there: it
    stops the music of the capture that is recording, and the cleanup of
    the capture before is not called, neither then nor when the new
    capture finishes or is stopped, the ref being empty and no timer
    left. *)
Theorem stale_timer_stops_new_music :
  forall studio w duration random now earlier music,
    isRecordingRef w = false ->
    audioCleanupRef w = Some earlier ->
    cleanupTimers w = 1%nat ->
    createAudioStreamFromFile (audioEnv studio) duration random
    = Some music ->
    addAudioTrackThrows studio = false ->
    Capture.startThrows (encoder studio) = None ->
    let w1 := fst (startRecording studio w duration true random now) in
    let fired := cleanupTimer w1 in
    audioCleanupRef w1 = Some (audioSource music)
    /\ isRecordingRef fired = true
    /\ cleanedUp fired = cleanedUp w ++ [audioSource music]
    /\ audioCleanupRef fired = None
    /\ cleanupTimers fired = 0%nat
    /\ cleanedUp (fst (finishRecording studio fired)) = cleanedUp fired
    /\ cleanupTimers (fst (finishRecording studio fired)) = 0%nat
    /\ cleanedUp (fst (stopRecording studio fired)) = cleanedUp fired.
Proof.
  intros studio w duration random now earlier music
         Hidle Hclean Htimers Hmusic Htrack Hstart w1 fired.
  subst fired w1. unfold startRecording.
  rewrite Hidle, Hmusic, Htrack, Hstart. simpl.
  unfold cleanupTimer. simpl. rewrite Htimers. simpl.
  repeat split.
  - unfold finishRecording. simpl.
    destruct (Capture.finalizeThrows (encoder studio) _);
      [reflexivity |].
    destruct (Capture.mux (encoder studio) _); reflexivity.
  - unfold finishRecording. simpl.
    destruct (Capture.finalizeThrows (encoder studio) _);
      [reflexivity |].
    destruct (Capture.mux (encoder studio) _); reflexivity.
  - unfold stopRecording. simpl.
    destruct (Capture.cancelThrows (encoder studio)); reflexivity.
Qed.

(** Two captures with music in a row, the second started before the timer
    of the first has fired: the timer stops the music of the second, and
    the music of the first is left playing. *)
Lemma stale_timer_stops_new_music_witness :
  let first :=
    mkStudio reliable (mkAudioEnv (Some 180) false (Some 1%nat)) false in
  let second :=
    mkStudio reliable (mkAudioEnv (Some 180) false (Some 2%nat)) false in
  let w :=
    fst (finishRecording first
           (fst (startRecording first (init Samples.canvas) 20 true 0.5
                                1000))) in
  let w1 := fst (startRecording second w 20 true 0.5 30000) in
  audioCleanupRef w = Some 1%nat
  /\ isRecordingRef (cleanupTimer w1) = true
  /\ cleanedUp (cleanupTimer w1) = [2%nat].
Proof.
  intros first second w w1. split; [reflexivity |].
  destruct (stale_timer_stops_new_music second w 20 0.5 30000 1%nat
              (mkAudioStream 2%nat (0.5 * 160) true 0.3 0.3 21000))
    as (_ & Hrec & Hcalled & _); try reflexivity.
  split; [exact Hrec | exact Hcalled].
Defined.

End PacedFacts.

(** ** Generating a video *)

Module AppFacts.

Import THREE Samples MoreSamples CaptureOutcome JSFacts App.

(** *** The length of the video *)

Lemma path_seconds_whole :
  forall n : nat,
    Qmax 20 (6 + JS.num n * 4)
    == inject_Z (Z.of_nat (Nat.max 20 (6 + 4 * n))).
Proof.
  intro n.
  assert (E : 6 + JS.num n * 4 == inject_Z (Z.of_nat (6 + 4 * n))).
  { unfold JS.num. rewrite Nat2Z.inj_add, Nat2Z.inj_mul.
    rewrite inject_Z_plus, inject_Z_mult. simpl. ring. }
  destruct (Nat.max_spec 20 (6 + 4 * n)) as [[Hlt ->] | [Hle ->]].
  - rewrite Q.max_r; [exact E |]. rewrite E.
    change 20 with (inject_Z (Z.of_nat 20)). rewrite <- Zle_Qle. lia.
  - rewrite Q.max_l; [reflexivity |]. rewrite E.
    change 20 with (inject_Z (Z.of_nat 20)). rewrite <- Zle_Qle. lia.
Qed.

(** The product of the duration and 30 is a whole number far below
    [2 ^ 53], hence exact, for as many assets as an array can hold. *)
Lemma path_frames :
  forall n : nat,
    (Z.of_nat n < 2 ^ 32)%Z ->
    Z.to_nat (Qceiling (JS.times (Qmax 20 (6 + JS.num n * 4)) 30))
    = (30 * Nat.max 20 (6 + 4 * n))%nat.
Proof.
  intros n Hn.
  assert (E : Qmax 20 (6 + JS.num n * 4) * 30
              == inject_Z (Z.of_nat (Nat.max 20 (6 + 4 * n)) * 30))
    by (rewrite inject_Z_mult, path_seconds_whole; reflexivity).
  change (2 ^ 32)%Z with 4294967296%Z in Hn.
  rewrite (times_whole _ _ _ E).
  - rewrite Qceiling_Z. lia.
  - change (2 ^ 53)%Z with 9007199254740992%Z. lia.
Qed.

Lemma twenty_seconds_frames :
  Z.to_nat (Qceiling (JS.times 20 30)) = 600%nat.
Proof. vm_compute. reflexivity. Qed.

Section Generate.

Variable sn cs : Q -> Q.
Variable pi : Q.
Variable encoder : Capture.Encoder.

Hypothesis start_ok : Capture.startThrows encoder = None.
Hypothesis add_ok : forall fs f, Capture.addThrows encoder fs f = None.

Lemma multi_duration :
  forall st r,
    (2 <= length (Assets.assets (manager st)))%nat ->
    Rig.getDynamicDuration
      (Rig.startRecordingAnimation sn cs pi (rigProps st) r
         (Rig.mount (rigProps st)))
    = Qmax 20 (6 + JS.num (length (Assets.assets (manager st))) * 4).
Proof.
  intros st r Hlen.
  unfold Rig.getDynamicDuration, Rig.startRecordingAnimation. simpl.
  unfold Rig.generateRandomKeyframes, rigProps, Assets.getAssetsPositions.
  simpl.
  destruct (Assets.assets (manager st)) as [| a [| b l]];
    simpl in Hlen; try lia.
  simpl. rewrite length_map. reflexivity.
Qed.

(** With the rig connected in time, two assets or more (and fewer than
    [2 ^ 32], as in every array), an idle hook and an encoder that works,
    generating a video downloads one file, made of exactly
    [30 * max(20, 6 + 4 n)] frames, shows no alert, and leaves the
    application out of video mode, the hook idle, the rig reset and the
    camera in its default pose. *)
Theorem generated_video_has_every_frame :
  forall run st canvas video,
    canvasRef st = Some canvas ->
    isRecording st = false ->
    (2 <= length (Assets.assets (manager st)))%nat ->
    (Z.of_nat (length (Assets.assets (manager st))) < 2 ^ 32)%Z ->
    Capture.isRecordingRef (hook st) = false ->
    mounting run = AfterFrames \/ mounting run = AfterRetry ->
    let total :=
      (30 * Nat.max 20 (6 + 4 * length (Assets.assets (manager st))))%nat in
    (total < ticks run)%nat ->
    Capture.finalizeThrows encoder (Capture.expectedFrames total) = None ->
    Capture.mux encoder (Capture.expectedFrames total) = Some video ->
    exists h,
      handleGenerateVideo sn cs pi encoder run st
      = Some (mkState false false (Some canvas) (manager st)
                (Some (Rig.mkRig None false [] 20))
                (mkCamera (mkVector3 0 2 5) (mkVector3 0 0 0)
                          (option_map (fun _ => 50) (cam_fov (camera st))))
                h
                (downloads st ++ [(video, fileName (now run))])
                (alerts st))
      /\ Capture.isRecordingRef h = false.
Proof.
  intros run st canvas video Hcanvas Hrec Hlen Harray Hidle Hmount total
         Hticks Hfin Hmux.
  pose proof (multi_duration st (random run) Hlen) as HD.
  set (seconds :=
         Qmax 20 (6 + JS.num (length (Assets.assets (manager st))) * 4)) in *.
  assert (Htotal : Z.to_nat (Qceiling (JS.times seconds 30)) = total)
    by (apply path_frames; exact Harray).
  destruct (CaptureFacts.startRecording_inFlight encoder seconds (hook st)
              canvas Hidle start_ok) as (h1 & session & E & Hin & Hzero).
  destruct (CaptureMore.runCapture_settles encoder seconds h1 session
              add_ok Hin Hzero (ticks run)) as (h2 & E2 & Hidle2 & _);
    [rewrite Htotal; exact Hticks |].
  rewrite Htotal in E2. unfold outcome in E2. rewrite Hfin, Hmux in E2.
  exists h2. split; [| exact Hidle2].
  unfold handleGenerateVideo. rewrite Hcanvas, Hrec.
  assert (Hne : Nat.eqb (length (Assets.assets (manager st))) 0 = false)
    by (apply Nat.eqb_neq; lia).
  rewrite Hne. simpl orb. cbv iota.
  destruct Hmount as [-> | ->]; cbv zeta; rewrite HD, E, E2;
    unfold finish; simpl; rewrite Hcanvas; reflexivity.
Qed.

End Generate.

Lemma generated_video_has_every_frame_witness :
  exists h,
    handleGenerateVideo sin0 cos1 Samples.pi reliable
      (mkRun AfterFrames 0.5 601 1700) ready
    = Some (mkState false false (Some Samples.canvas) twoManaged
              (Some (Rig.mkRig None false [] 20))
              (mkCamera (mkVector3 0 2 5) (mkVector3 0 0 0) (Some 50))
              h [([], fileName 1700)] [])
    /\ Capture.isRecordingRef h = false.
Proof.
  apply (generated_video_has_every_frame sin0 cos1 Samples.pi reliable
           eq_refl (fun _ _ => eq_refl)
           (mkRun AfterFrames 0.5 601 1700) ready Samples.canvas []);
    first [reflexivity | now left | vm_compute; lia].
Defined.

(** *** When the rig is not connected *)

(** When the ref of the camera rig is never connected, the video is still
    recorded, with the 20 seconds of the fallback, that is 600 frames,
    however many assets there are; the camera is not moved and nothing is
    reset. *)
Theorem unconnected_rig_records_twenty_seconds :
  forall sn cs pi encoder run st canvas video,
    Capture.startThrows encoder = None ->
    (forall fs f, Capture.addThrows encoder fs f = None) ->
    canvasRef st = Some canvas ->
    isRecording st = false ->
    Assets.assets (manager st) <> [] ->
    Capture.isRecordingRef (hook st) = false ->
    mounting run = Never ->
    (600 < ticks run)%nat ->
    Capture.finalizeThrows encoder (Capture.expectedFrames 600) = None ->
    Capture.mux encoder (Capture.expectedFrames 600) = Some video ->
    exists h,
      handleGenerateVideo sn cs pi encoder run st
      = Some (mkState false false (Some canvas) (manager st) None
                (camera st) h
                (downloads st ++ [(video, fileName (now run))])
                (alerts st))
      /\ Capture.isRecordingRef h = false.
Proof.
  intros sn cs pi encoder run st canvas video Hstart Hadd Hcanvas Hrec
         Hassets Hidle Hmount Hticks Hfin Hmux.
  destruct (CaptureFacts.startRecording_inFlight encoder 20 (hook st)
              canvas Hidle Hstart) as (h1 & session & E & Hin & Hzero).
  destruct (CaptureMore.runCapture_settles encoder 20 h1 session
              Hadd Hin Hzero (ticks run)) as (h2 & E2 & Hidle2 & _);
    [rewrite twenty_seconds_frames; exact Hticks |].
  rewrite twenty_seconds_frames in E2.
  unfold outcome in E2. rewrite Hfin, Hmux in E2.
  exists h2. split; [| exact Hidle2].
  unfold handleGenerateVideo. rewrite Hcanvas, Hrec, Hmount.
  assert (Hne : Nat.eqb (length (Assets.assets (manager st))) 0 = false)
    by (apply Nat.eqb_neq; destruct (Assets.assets (manager st));
        [congruence | discriminate]).
  rewrite Hne. simpl orb. cbv iota. cbv zeta. rewrite E, E2.
  unfold finish. simpl. rewrite Hcanvas. reflexivity.
Qed.

Lemma unconnected_rig_records_twenty_seconds_witness :
  exists h,
    handleGenerateVideo sin0 cos1 Samples.pi reliable
      (mkRun Never 0.5 601 1700) ready
    = Some (mkState false false (Some Samples.canvas) twoManaged None
              Samples.perspective h [([], fileName 1700)] [])
    /\ Capture.isRecordingRef h = false.
Proof.
  apply (unconnected_rig_records_twenty_seconds sin0 cos1 Samples.pi reliable
           (mkRun Never 0.5 601 1700) ready Samples.canvas []);
    first [reflexivity | discriminate | vm_compute; lia].
Defined.

(** *** When the hook is still recording *)

(** While the capture hook is left recording, as it is after a frame could
    not be submitted, every generation ends with the alert and without a
    download, and leaves the hook as it was: the next one fails in the same
    way, whatever the encoder does by then. *)
Theorem generation_fails_while_hook_recording :
  forall sn cs pi encoder run st canvas,
    canvasRef st = Some canvas ->
    isRecording st = false ->
    Assets.assets (manager st) <> [] ->
    Capture.isRecordingRef (hook st) = true ->
    exists st',
      handleGenerateVideo sn cs pi encoder run st = Some st'
      /\ downloads st' = downloads st
      /\ alerts st'
         = alerts st ++ ["Error generating video. Please try again."%string]
      /\ hook st' = hook st
      /\ canvasRef st' = canvasRef st
      /\ isRecording st' = false
      /\ manager st' = manager st.
Proof.
  intros sn cs pi encoder run st canvas Hcanvas Hrec Hassets Hlocked.
  unfold handleGenerateVideo. rewrite Hcanvas, Hrec.
  assert (Hne : Nat.eqb (length (Assets.assets (manager st))) 0 = false)
    by (apply Nat.eqb_neq; destruct (Assets.assets (manager st));
        [congruence | discriminate]).
  rewrite Hne. simpl orb. cbv iota. cbv zeta.
  unfold Capture.startRecording. rewrite Hlocked.
  eexists. split; [reflexivity |].
  unfold finish.
  destruct (mounting run); simpl; rewrite ?Hcanvas; repeat split.
Qed.

(** A generation on the faulty encoder, whose third frame cannot be
    submitted, and then one on the reliable encoder: the second downloads
    nothing either. *)
Lemma generation_fails_while_hook_recording_witness :
  match handleGenerateVideo sin0 cos1 Samples.pi faulty
          (mkRun AfterFrames 0.5 601 1700) ready with
  | Some st1 =>
      Capture.isRecordingRef (hook st1) = true
      /\ exists st2,
           handleGenerateVideo sin0 cos1 Samples.pi reliable
             (mkRun AfterFrames 0.5 601 1800) st1 = Some st2
           /\ downloads st2 = downloads st1
  | None => False
  end.
Proof.
  set (first := handleGenerateVideo sin0 cos1 Samples.pi faulty
                  (mkRun AfterFrames 0.5 601 1700) ready).
  vm_compute in first. subst first. cbv iota beta.
  split; [reflexivity |].
  match goal with
  | |- exists st2, handleGenerateVideo _ _ _ _ ?run ?st = _ /\ _ =>
      destruct (generation_fails_while_hook_recording sin0 cos1 Samples.pi
                  reliable run st Samples.canvas)
        as (st' & E & Hd & _);
        [reflexivity | reflexivity | discriminate | reflexivity |];
      exists st'; split; [exact E | exact Hd]
  end.
Defined.

End AppFacts.

(** ** The older camera rig *)

Module VideoRigFacts.

Import THREE Samples MoreSamples JSFacts VideoRig.

Lemma frameProgress_range :
  forall props st clock,
    0 < duration props ->
    0 <= atQuery clock ->
    match animationStartTimeRef st with
    | Some start => start <= atQuery clock
    | None => atLatch clock <= atQuery clock
    end ->
    0 <= snd (frameProgress props st clock)
    /\ snd (frameProgress props st clock) <= 1.
Proof.
  intros props st clock Hd He Hstart. unfold frameProgress.
  destruct (isRecordingRef st).
  - simpl.
    assert (Ht : 0 <= (atQuery clock - match animationStartTimeRef st with
                                       | Some s => s
                                       | None => atLatch clock
                                       end) / duration props).
    { apply Qle_shift_div_l; [exact Hd |].
      destruct (animationStartTimeRef st); lra. }
    split; [| apply Q.le_min_r].
    apply Q.min_glb; [exact Ht | lra].
  - simpl. destruct (RigMore.rem_range (atQuery clock * 0.1) 1); lra.
Qed.

(** While recording, the first render latches the first reading of the
    clock, whatever it is, and its progress is the share of the duration
    that went by until the second reading: 0 when the clock has not
    advanced between the two.  On every render progress stays in the range
    from 0 to 1 (the clock not going backwards), and it is exactly 1 from
    the moment the duration has elapsed, so the animation stays on its last
    shot. *)
Theorem recording_progress_saturates :
  forall props st clock,
    0 < duration props ->
    isRecordingRef st = true ->
    (animationStartTimeRef st = None ->
       atLatch clock <= atQuery clock ->
       animationStartTimeRef (fst (frameProgress props st clock))
       = Some (atLatch clock)
       /\ snd (frameProgress props st clock)
          = Qmin ((atQuery clock - atLatch clock) / duration props) 1
       /\ 0 <= snd (frameProgress props st clock)
       /\ snd (frameProgress props st clock) <= 1
       /\ (atQuery clock == atLatch clock ->
           snd (frameProgress props st clock) == 0))
    /\ (forall start,
          animationStartTimeRef st = Some start ->
          start <= atQuery clock ->
          0 <= snd (frameProgress props st clock)
          /\ snd (frameProgress props st clock) <= 1
          /\ (start + duration props <= atQuery clock ->
              snd (frameProgress props st clock) == 1)).
Proof.
  intros props st clock Hd Hrec. unfold frameProgress. rewrite Hrec.
  split.
  - intros -> Hmono. simpl.
    assert (Ht : 0 <= (atQuery clock - atLatch clock) / duration props)
      by (apply Qle_shift_div_l; lra).
    split; [reflexivity |]. split; [reflexivity |].
    split; [apply Q.min_glb; lra |].
    split; [apply Q.le_min_r |].
    intro Hsame.
    assert (E : (atQuery clock - atLatch clock) / duration props == 0)
      by (rewrite Hsame; field; lra).
    rewrite E. apply Q.min_l. lra.
  - intros start -> Hstart. simpl.
    assert (Ht : 0 <= (atQuery clock - start) / duration props)
      by (apply Qle_shift_div_l; lra).
    split; [apply Q.min_glb; lra |].
    split; [apply Q.le_min_r |].
    intro Hend. apply Q.min_r. apply Qle_shift_div_l; lra.
Qed.

(** A first render on which a hundredth of a second goes by between the
    two readings of the clock, for a sweep of five seconds: progress is
    0.002, not 0. *)
Lemma recording_progress_saturates_witness :
  snd (frameProgress sweep (mkRig None true) (mkClock 10 10.01)) == 0.002
  /\ snd (frameProgress sweep (mkRig (Some 10) true) (still 17)) == 1.
Proof.
  split.
  - destruct (recording_progress_saturates sweep (mkRig None true)
                (mkClock 10 10.01))
      as [H _]; [reflexivity | reflexivity |].
    destruct (H eq_refl) as (_ & E & _); [simpl; lra |].
    rewrite E. vm_compute. reflexivity.
  - destruct (recording_progress_saturates sweep (mkRig (Some 10) true)
                (still 17))
      as [_ H]; [reflexivity | reflexivity |].
    destruct (H 10 eq_refl) as (_ & _ & Hend); [simpl; lra |].
    apply Hend. simpl. lra.
Defined.

(** On every render of an enabled rig with a positive duration, recording
    or in preview and in every animation style, the camera is turned to a
    point of the vertical axis, at a height from 1 to 1.5; the clock is
    taken not to go backwards. *)
Theorem camera_aims_at_axis :
  forall sn cs pi props st camera clock,
    enabled props = true ->
    0 < duration props ->
    0 <= atQuery clock ->
    match animationStartTimeRef st with
    | Some start => start <= atQuery clock
    | None => atLatch clock <= atQuery clock
    end ->
    let target := cam_target (snd (useFrame sn cs pi props st camera clock)) in
    x target = 0 /\ z target = 0 /\ 1 <= y target /\ y target <= 1.5.
Proof.
  intros sn cs pi props st camera clock Hen Hd He Hstart target.
  subst target. unfold useFrame. rewrite Hen. simpl.
  pose proof (frameProgress_range props st clock Hd He Hstart) as [H0 H1].
  destruct (frameProgress props st clock) as [st' progress].
  simpl in *. unfold getAnimationPosition.
  destruct (animationStyle props); simpl;
    try (repeat split; lra).
  destruct (JS.lt progress 0.3); [simpl; repeat split; lra |].
  destruct (JS.lt progress 0.7); simpl; repeat split; lra.
Qed.

Lemma camera_aims_at_axis_witness :
  y (cam_target (snd (useFrame sin0 cos1 Samples.pi sweep
                               (mkRig None true) perspective
                               (mkClock 12 12.01))))
  <= 1.5.
Proof.
  destruct (camera_aims_at_axis sin0 cos1 Samples.pi sweep
              (mkRig None true) perspective (mkClock 12 12.01))
    as (_ & _ & _ & H); [reflexivity | simpl; lra | simpl; lra | simpl; lra |].
  exact H.
Defined.

End VideoRigFacts.
